(** * stampt: timestamped markdown notes

    A shallow embedding of [stampt.py] (the timestamp codec, the note store
    and the multi-line capture loop) together with the properties of the
    specification that concern them.

    Modelling conventions.
    - A Python [str] is a list of characters.  Characters are the code points
      0..255 ([ascii]); on that range [str.isspace], [str.lower] and the
      regular expression class [\d] are the tables written out below.
    - A [Path] inside the notes directory is identified with its file name
      ([Path.name]); the directory is the list of its entries in the order
      in which the file system enumerates them.
    - Exceptions are values of [exn]; a call that may raise returns a
      [result].
    - The clock, the keyboard and the terminal are inputs: every call that
      reads one of them takes the value it reads as an argument.  So are
      the time zone ([mktime]) and what the operating system does with a
      write ([write_outcome]).
    - Files are read in text mode, with universal newlines, and written as
      on Linux, where a newline is written as it is. *)

From Stdlib Require Import List Ascii String ZArith NArith Arith Lia Bool.
From Stdlib Require Import Sorting.Sorted Sorting.Permutation.
From Stdlib Require Import DecimalNat.
Import ListNotations.

Open Scope string_scope.
Open Scope list_scope.
Open Scope Z_scope.

(** ** Strings *)

Definition str := list ascii.

(** String literals are read as lists of characters. *)
Coercion list_ascii_of_string : string >-> list.

Fixpoint str_eqb (a b : str) : bool :=
  match a, b with
  | [], [] => true
  | x :: a', y :: b' => Ascii.eqb x y && str_eqb a' b'
  | _, _ => false
  end.

Definition is_empty (s : str) : bool :=
  match s with [] => true | _ => false end.

Definition code (c : ascii) : N := N_of_ascii c.

Definition between (lo hi n : N) : bool := ((lo <=? n) && (n <=? hi))%N.

(** [str.isspace] on one character: TAB..CR, FS..US, SPACE, NEL, NBSP. *)
Definition is_space (c : ascii) : bool :=
  between 9 13 (code c) || between 28 32 (code c)
  || (code c =? 133)%N || (code c =? 160)%N.

(** [\d] of the [re] module on one character. *)
Definition is_digit (c : ascii) : bool := between 48 57 (code c).

Fixpoint lstrip (s : str) : str :=
  match s with
  | [] => []
  | c :: s' => if is_space c then lstrip s' else s
  end.

Definition rstrip (s : str) : str := rev (lstrip (rev s)).

(** [str.strip()] with no argument. *)
Definition strip (s : str) : str := rstrip (lstrip s).

(** [str.lower] on one character: A..Z and the capital letters of the
    Latin-1 block (all of C0..DE but the multiplication sign D7). *)
Definition lower_char (c : ascii) : ascii :=
  let n := code c in
  if between 65 90 n || (between 192 222 n && negb (n =? 215)%N)
  then ascii_of_N (n + 32)
  else c.

Definition lower (s : str) : str := map lower_char s.

Fixpoint startswith (s p : str) : bool :=
  match p, s with
  | [], _ => true
  | x :: p', y :: s' => Ascii.eqb x y && startswith s' p'
  | _ :: _, [] => false
  end.

(** [p in s] on strings: [p] occurs in [s] as a contiguous substring. *)
Fixpoint str_in (p s : str) : bool :=
  startswith s p ||
  match s with
  | [] => false
  | _ :: s' => str_in p s'
  end.

Definition endswith (s p : str) : bool := startswith (rev s) (rev p).

(** [sep.join(ls)]. *)
Fixpoint join (sep : str) (ls : list str) : str :=
  match ls with
  | [] => []
  | [x] => x
  | x :: rest => x ++ sep ++ join sep rest
  end.

(** *** Decimal numerals *)

Definition digit (n : Z) : ascii := ascii_of_N (Z.to_N (48 + n)).

Definition digit_val (c : ascii) : Z := Z.of_N (code c) - 48.

Fixpoint str_of_uint (d : Decimal.uint) : str :=
  match d with
  | Decimal.Nil => []
  | Decimal.D0 d => "0"%char :: str_of_uint d
  | Decimal.D1 d => "1"%char :: str_of_uint d
  | Decimal.D2 d => "2"%char :: str_of_uint d
  | Decimal.D3 d => "3"%char :: str_of_uint d
  | Decimal.D4 d => "4"%char :: str_of_uint d
  | Decimal.D5 d => "5"%char :: str_of_uint d
  | Decimal.D6 d => "6"%char :: str_of_uint d
  | Decimal.D7 d => "7"%char :: str_of_uint d
  | Decimal.D8 d => "8"%char :: str_of_uint d
  | Decimal.D9 d => "9"%char :: str_of_uint d
  end.

(** [str(i)] (also the [{i}] of an f-string) for a natural number. *)
Definition str_of_nat (n : nat) : str := str_of_uint (Nat.to_uint n).

(** Zero-padded fields of [strftime]: [%m %d %H %M %S] and [%Y]. *)
Definition pad2 (n : Z) : str := [digit (n / 10); digit (n mod 10)].

Definition pad4 (n : Z) : str :=
  [digit (n / 1000); digit (n / 100 mod 10); digit (n / 10 mod 10);
   digit (n mod 10)].

(** The number written by a string of decimal digits, [None] when some
    character is not a digit ([int] on a field of the pattern). *)
Fixpoint int_of_digits (acc : Z) (s : str) : option Z :=
  match s with
  | [] => Some acc
  | c :: s' =>
      if is_digit c then int_of_digits (10 * acc + digit_val c) s' else None
  end.

Definition LF : ascii := "010"%char.

Definition CR : ascii := "013"%char.

(** The one-character string holding a newline. *)
Definition nl : str := [LF].

(** ** Results and exceptions *)

Inductive exn : Type :=
| EOFError
| KeyboardInterrupt
| OSError
| TermiosError
| RuntimeError (msg : str)
| UnicodeEncodeError.

Inductive result (A : Type) : Type :=
| Ret (a : A)
| Raise (e : exn).

Arguments Ret {A} a.
Arguments Raise {A} e.

(** ** Timestamp codec *)

(** A naive [datetime.datetime] value.  Where the clocks are set back and a
    clock time comes twice, [fold] is 0 for its first passage and 1 for its
    second; [datetime.now()] sets it, and [strptime] leaves it at 0. *)
Record datetime : Type := mkDatetime {
  year : Z;
  month : Z;
  day : Z;
  hour : Z;
  minute : Z;
  second : Z;
  microsecond : Z;
  fold : Z
}.

Definition is_leap (y : Z) : bool :=
  (y mod 4 =? 0) && (negb (y mod 100 =? 0) || (y mod 400 =? 0)).

Definition _DAYS_IN_MONTH : list Z :=
  [-1; 31; 28; 31; 30; 31; 30; 31; 31; 30; 31; 30; 31].

Definition _DAYS_BEFORE_MONTH : list Z :=
  [-1; 0; 31; 59; 90; 120; 151; 181; 212; 243; 273; 304; 334].

Definition days_in_month (y m : Z) : Z :=
  if (m =? 2) && is_leap y then 29
  else nth (Z.to_nat m) _DAYS_IN_MONTH 0.

Definition in_range (lo hi n : Z) : bool := (lo <=? n) && (n <=? hi).

(** The checks of the [datetime] constructor ([MINYEAR] is 1 and [MAXYEAR]
    is 9999); a value that fails them cannot be built ([ValueError]). *)
Definition valid_datetime (t : datetime) : bool :=
  in_range 1 9999 (year t) && in_range 1 12 (month t)
  && in_range 1 (days_in_month (year t) (month t)) (day t)
  && in_range 0 23 (hour t) && in_range 0 59 (minute t)
  && in_range 0 59 (second t) && in_range 0 999999 (microsecond t)
  && in_range 0 1 (fold t).

(** [%Y] as the C library of Linux writes it for [strftime]: the decimal
    numeral of the year, without padding, so three characters for the year
    999.  (A library that pads the year to four digits writes [pad4]; the
    two agree from the year 1000 on.) *)
Definition year_text (y : Z) : str := str_of_nat (Z.to_nat y).

(** [t.strftime("%Y-%m-%d_%H-%M-%S")]: the fields but the year are padded
    with zeros to two digits. *)
Definition strftime (t : datetime) : str :=
  year_text (year t) ++ "-" ++ pad2 (month t) ++ "-" ++ pad2 (day t) ++ "_"
  ++ pad2 (hour t) ++ "-" ++ pad2 (minute t) ++ "-" ++ pad2 (second t).

(** The text [YYYY-MM-DD_HH-MM-SS] of [t], every field padded with zeros to
    its width, the year to four digits: the texts that [strptime] reads. *)
Definition padded (t : datetime) : str :=
  pad4 (year t) ++ "-" ++ pad2 (month t) ++ "-" ++ pad2 (day t) ++ "_"
  ++ pad2 (hour t) ++ "-" ++ pad2 (minute t) ++ "-" ++ pad2 (second t).

(** The items of a pattern without alternatives: [\d] or a literal. *)
Inductive pat_item : Type :=
| PDigit
| PLit (c : ascii).

Definition item_matches (p : pat_item) (c : ascii) : bool :=
  match p with
  | PDigit => is_digit c
  | PLit d => Ascii.eqb c d
  end.

(** [re.match]: the pattern is tried at position 0 only; the text it
    matched is returned. *)
Fixpoint re_match (pat : list pat_item) (s : str) : option str :=
  match pat with
  | [] => Some []
  | p :: pat' =>
      match s with
      | [] => None
      | c :: s' =>
          if item_matches p c
          then match re_match pat' s' with
               | Some m => Some (c :: m)
               | None => None
               end
          else None
      end
  end.

Definition digits (n : nat) : list pat_item := repeat PDigit n.

(** [_TS = re.compile(r"(\d{4}-\d{2}-\d{2}_\d{2}-\d{2}-\d{2})")] *)
Definition _TS : list pat_item :=
  digits 4 ++ [PLit "-"] ++ digits 2 ++ [PLit "-"] ++ digits 2 ++ [PLit "_"]
  ++ digits 2 ++ [PLit "-"] ++ digits 2 ++ [PLit "-"] ++ digits 2.

(** The number in the [len] characters of [s] from position [off]. *)
Definition field (s : str) (off len : nat) : option Z :=
  int_of_digits 0 (firstn len (skipn off s)).

(** [datetime.strptime(s, "%Y-%m-%d_%H-%M-%S")] on a text of the shape of
    [_TS], the only texts [_parse_ts] hands to it.  [None] stands for
    [ValueError]: the text does not match the format (month 00 or 13, day 00
    or 32, hour 24, minute 60, second 62: the field's own pattern rejects
    them), or the fields are not a date ([valid_datetime]: year 0000, a day
    past the end of the month, second 60 or 61). *)
Definition strptime (s : str) : option datetime :=
  match re_match _TS s with
  | None => None
  | Some m =>
      if negb (List.length s =? List.length m)%nat then None else
      match field s 0 4, field s 5 2, field s 8 2,
            field s 11 2, field s 14 2, field s 17 2 with
      | Some yr, Some mo, Some dy, Some hr, Some mi, Some sc =>
          let fits :=
            in_range 1 12 mo && in_range 1 31 dy && in_range 0 23 hr
            && in_range 0 59 mi && in_range 0 61 sc in
          let t := mkDatetime yr mo dy hr mi sc 0 0 in
          if fits && valid_datetime t then Some t else None
      | _, _, _, _, _, _ => None
      end
  end.

(** [_days_before_year] and [_days_before_month] of the datetime module. *)
Definition days_before_year (y : Z) : Z :=
  (y - 1) * 365 + (y - 1) / 4 - (y - 1) / 100 + (y - 1) / 400.

Definition days_before_month (y m : Z) : Z :=
  nth (Z.to_nat m) _DAYS_BEFORE_MONTH 0
  + (if (2 <? m) && is_leap y then 1 else 0).

(** Proleptic Gregorian ordinal, January 1st of year 1 being day 1. *)
Definition ymd2ord (y m d : Z) : Z :=
  days_before_year y + days_before_month y m + d.

(** [(t - datetime(1970, 1, 1)) // timedelta(seconds=1)]: the seconds from
    the epoch to [t], both read on the same clock. *)
Definition naive_seconds (t : datetime) : Z :=
  (ymd2ord (year t) (month t) (day t) - 719163) * 86400
  + hour t * 3600 + minute t * 60 + second t.

Section Codec.

(** The local time zone, as [t.timestamp()] consults it for a naive [t]:
    [mktime s f] is the POSIX time, in whole seconds, at which the local
    clock shows the naive count of seconds [s], for its first passage when
    [f] is 0 and for its second when [f] is 1 and the clock time comes twice.
    [None] stands for the [ValueError] of the conversion, which looks a day
    around [s] and fails when that leaves the years 1 to 9999. *)
Variable mktime : Z -> Z -> option Z.

(** [t.timestamp()] for a naive [t], in whole seconds: the float of the code
    is this number plus [microsecond / 10^6], a whole number when the
    microsecond is 0.  [None] stands for [ValueError]. *)
Definition timestamp (t : datetime) : option Z :=
  mktime (naive_seconds t) (fold t).

(** [_parse_ts(name)], lines 91-99.  The [ValueError] of [strptime] and
    that of [timestamp] are both caught at line 98. *)
Definition _parse_ts (name : str) : option Z :=
  match re_match _TS name with
  | None => None
  | Some m =>
      match strptime m with
      | Some t => timestamp t
      | None => None
      end
  end.

End Codec.

(** [_now_ts()], lines 52-54; [now] is the value of [datetime.now()]. *)
Definition _now_ts (now : datetime) : str := strftime now.

(** ** Note store *)

(** What a file holds: the text that its bytes decode to as UTF-8, or
    something that cannot be opened or decoded ([OSError],
    [UnicodeDecodeError] on reading). *)
Inductive entry : Type :=
| Text (content : str)
| Unreadable.

(** The notes directory: file names with what they hold, in the order of
    enumeration. *)
Definition directory := list (str * entry).

(** [(directory / name).exists()] *)
Definition path_exists (d : directory) (name : str) : bool :=
  existsb (fun e => str_eqb (fst e) name) d.

Fixpoint lookup (d : directory) (name : str) : option entry :=
  match d with
  | [] => None
  | (n, e) :: d' => if str_eqb n name then Some e else lookup d' name
  end.

(** What reading in text mode makes of the text of a file (universal
    newlines): a carriage return followed by a newline, and a carriage
    return alone, are read as one newline. *)
Fixpoint universal_newlines (s : str) : str :=
  match s with
  | [] => []
  | c :: s' =>
      if Ascii.eqb c CR then
        LF :: match s' with
              | [] => []
              | c' :: s'' =>
                  if Ascii.eqb c' LF then universal_newlines s''
                  else universal_newlines s'
              end
      else c :: universal_newlines s'
  end.

(** [(directory / name).read_text(encoding="utf-8")] *)
Definition read_text (d : directory) (name : str) : result str :=
  match lookup d name with
  | Some (Text c) => Ret (universal_newlines c)
  | Some Unreadable | None => Raise OSError
  end.

Fixpoint replace (d : directory) (name : str) (e : entry) : directory :=
  match d with
  | [] => []
  | (n, x) :: d' =>
      if str_eqb n name then (n, e) :: d' else (n, x) :: replace d' name e
  end.

(** [(directory / name).write_text(content, encoding="utf-8")] when the
    operating system takes the write and lists a new file after the others
    (a newline is written as it is, as on Linux): the file is created, or
    truncated and rewritten when it exists.  The other outcomes of the call
    are those of [write_outcome] below. *)
Definition write_text (d : directory) (name content : str) : directory :=
  if path_exists d name then replace d name (Text content)
  else d ++ [(name, Text content)].

(** [directory.glob("*.md")]: the names that end in [.md]. *)
Definition glob_md (d : directory) : list str :=
  filter (fun n => endswith n ".md") (map fst d).

Definition too_many : exn := RuntimeError "Too many versions this second!".

(** The candidate of the loop body, [f"{base}_v{i}.md"]. *)
Definition versioned (base : str) (i : nat) : str :=
  base ++ "_v" ++ str_of_nat i ++ ".md".

(** The [for] loop of lines 62-65 over the values [ixs] of the range. *)
Fixpoint probe (d : directory) (base : str) (ixs : list nat) : result str :=
  match ixs with
  | [] => Raise too_many
  | i :: ixs' =>
      let cand := versioned base i in
      if negb (path_exists d cand) then Ret cand else probe d base ixs'
  end.

(** [range(a, b)] *)
Definition range (a b : nat) : list nat := seq a (b - a).

(** [_free_filename(directory, base)], lines 57-66. *)
Definition _free_filename (d : directory) (base : str) : result str :=
  let path := base ++ ".md" in
  if negb (path_exists d path) then Ret path
  else probe d base (range 1 1000).

(** [save_note(directory, text)], lines 69-84, with the clock reading
    [now], on a file system that takes the write of line 77 and lists the
    new file after the others.  The result pairs the directory after the
    call with what the call returns ([None] for Python's [None]).  The
    [RuntimeError] of [_free_filename] is not an [OSError] and passes
    through.  [save_note_under] below is the same function with the other
    outcomes of the write. *)
Definition save_note (d : directory) (now : datetime) (text : str)
  : directory * result (option str) :=
  if is_empty text || is_empty (strip text) then (d, Ret None)
  else
    match _free_filename d (_now_ts now) with
    | Raise e => (d, Raise e)
    | Ret p => (write_text d p (strip text ++ nl), Ret (Some p))
    end.

(** What may become of the write of line 77, to a file that does not exist
    yet.  [Written]: the file is created and holds the text.  [EncodeFails]:
    the text cannot be encoded as UTF-8 (it holds a lone surrogate, which a
    [str] of this development cannot, so the failure is left to the
    environment); [UnicodeEncodeError] is raised once the file was created,
    and the file stays empty.  [Refused]: [PermissionError] or another
    [OSError] before the file exists.  [Interrupted]: an [OSError] once the
    file exists, which then holds [rest].  [slot] is the place of the new
    file in the enumeration of the directory, which the file system
    chooses. *)
Inductive write_outcome : Type :=
| Written (slot : nat)
| EncodeFails (slot : nat)
| Refused
| Interrupted (slot : nat) (rest : str).

(** How a call of [save_note] ends: it returns a path or [None], it raises,
    or it leaves the program by [sys.exit]. *)
Inductive saving : Type :=
| Returns (p : option str)
| Raises (e : exn)
| Exits (status : Z).

(** The directory with a new file listed at position [slot]. *)
Definition place (slot : nat) (d : directory) (name content : str)
  : directory :=
  firstn slot d ++ (name, Text content) :: skipn slot d.

(** [save_note(directory, text)], lines 69-84, whatever becomes of the
    write: [UnicodeEncodeError] is no [OSError] and leaves the function; the
    handlers of lines 79-84 print a message and call [sys.exit(1)]. *)
Definition save_note_under (os : write_outcome) (d : directory)
    (now : datetime) (text : str) : directory * saving :=
  if is_empty text || is_empty (strip text) then (d, Returns None)
  else
    match _free_filename d (_now_ts now) with
    | Raise e => (d, Raises e)
    | Ret p =>
        match os with
        | Written slot => (place slot d p (strip text ++ nl), Returns (Some p))
        | EncodeFails slot => (place slot d p [], Raises UnicodeEncodeError)
        | Refused => (d, Exits 1)
        | Interrupted slot rest => (place slot d p rest, Exits 1)
        end
    end.

(** Keeps the pairs whose second component is not [None]. *)
Fixpoint with_some {A B : Type} (l : list (A * option B)) : list (A * B) :=
  match l with
  | [] => []
  | (a, Some b) :: l' => (a, b) :: with_some l'
  | (_, None) :: l' => with_some l'
  end.

(** [max(x :: l, key=...)]: the first of the items with the greatest key. *)
Fixpoint max_by_key {A : Type} (best : A * Z) (l : list (A * Z)) : A * Z :=
  match l with
  | [] => best
  | x :: l' => max_by_key (if snd best <? snd x then x else best) l'
  end.

(** One insertion of the stable sort by decreasing key. *)
Fixpoint insert_desc {A : Type} (x : A * Z) (l : list (A * Z))
  : list (A * Z) :=
  match l with
  | [] => [x]
  | y :: l' => if snd x <? snd y then y :: insert_desc x l' else x :: y :: l'
  end.

(** [sorted(l, key=lambda x: x[1], reverse=True)]: decreasing keys, items of
    equal key in their order in [l]. *)
Definition sorted_desc {A : Type} (l : list (A * Z)) : list (A * Z) :=
  fold_right insert_desc [] l.

(** What a search does to the file system. *)
Inductive access : Type :=
| AGlob
| ARead (name : str).

Section Store.

Variable mktime : Z -> Z -> option Z.

Definition stamped (files : list str) : list (str * Z) :=
  with_some (map (fun f => (f, _parse_ts mktime f)) files).

(** [newest_note(directory)], lines 102-111. *)
Definition newest_note (d : directory) : option str :=
  let files := glob_md d in
  match stamped files with
  | [] => None
  | v :: valid => Some (fst (max_by_key v valid))
  end.

(** The loop of lines 123-130: the files whose text holds [query_lower],
    and the reads made. *)
Fixpoint scan (d : directory) (query_lower : str) (files : list str)
  : list str * list access :=
  match files with
  | [] => ([], [])
  | f :: files' =>
      let (matching, log) := scan d query_lower files' in
      match read_text d f with
      | Ret content =>
          if str_in query_lower (lower content)
          then (f :: matching, ARead f :: log)
          else (matching, ARead f :: log)
      | Raise _ => (matching, ARead f :: log)
      end
  end.

(** [search_notes(directory, query)], lines 114-138: the paths returned
    and the accesses made to the directory and its files. *)
Definition search_notes (d : directory) (query : str)
  : list str * list access :=
  if is_empty (strip query) then ([], [])
  else
    let query_lower := lower query in
    let (matching_files, log) := scan d query_lower (glob_md d) in
    (map fst (sorted_desc (stamped matching_files)), AGlob :: log).

End Store.

(** ** Blank-line prompt *)

(** What one call of [input()] does: it returns the line typed, or raises
    [EOFError] or [KeyboardInterrupt]. *)
Inductive input_result : Type :=
| Line (s : str)
| Eof
| Interrupt.

(** What the console does during one call of [prompt_blank_line_action]:
    the outcome of [input] (line 172) and of each terminal call of lines
    179-189.  [read1] is the text returned by [sys.stdin.read(1)], empty at
    the end of the input. *)
Record console : Type := mkConsole {
  answer : input_result;
  tcgetattr : result unit;
  setraw : result unit;
  read1 : result str;
  tcsetattr : result unit
}.

Definition CTRL_X : str := ["024"%char].

(** [except (OSError, termios.error): return "enter"], lines 186-187. *)
Definition on_terminal_error (r : result str) : result str :=
  match r with
  | Raise OSError | Raise TermiosError => Ret ("enter" : str)
  | _ => r
  end.

(** [prompt_blank_line_action()], lines 162-189. *)
Definition prompt_blank_line_action (HAS_TERMIOS : bool) (c : console)
  : result str :=
  if negb HAS_TERMIOS then
    match answer c with
    | Line s =>
        let response := lower (strip s) in
        Ret (if str_eqb response "x" then "ctrlx" : str else "enter" : str)
    | Eof | Interrupt => Ret ("enter" : str)
    end
  else
    match tcgetattr c with
    | Raise e => Raise e
    | Ret _ =>
        let body :=
          match setraw c with
          | Raise e => Raise e
          | Ret _ =>
              match read1 c with
              | Raise e => Raise e
              | Ret ch =>
                  if str_eqb ch CTRL_X then Ret ("ctrlx" : str)
                  else Ret ("enter" : str)
              end
          end in
        let handled := on_terminal_error body in
        match tcsetattr c with
        | Raise e => Raise e
        | Ret _ => handled
        end
    end.

(** The console once the input is exhausted: [input] raises [EOFError],
    the terminal calls succeed and [read(1)] returns the empty string. *)
Definition at_eof : console :=
  mkConsole Eof (Ret tt) (Ret tt) (Ret []) (Ret tt).

(** ** Capture loop *)

(** How the loop of lines 351-366 ends, with the lines gathered so far. *)
Inductive capture_end : Type :=
| Confirmed (lines : list str)
| Abandoned (lines : list str)
| Failed (e : exn).

(** The loop of lines 351-360 under the [try] of line 351.  [inputs] are
    the outcomes of the successive calls of [input()] at line 353, the input
    being at its end when they are used up; [prompts] are the consoles met
    by the successive prompts.  [EOFError] and [KeyboardInterrupt] are those
    caught at line 361; another exception leaves the [try]. *)
Fixpoint capture (HAS_TERMIOS : bool) (lines : list str)
    (inputs : list input_result) (prompts : list console) : capture_end :=
  match inputs with
  | [] | Eof :: _ | Interrupt :: _ => Abandoned lines
  | Line line :: inputs' =>
      if is_empty (strip line) then
        match prompt_blank_line_action HAS_TERMIOS (hd at_eof prompts) with
        | Ret action =>
            if str_eqb action "ctrlx"
            then capture HAS_TERMIOS (lines ++ [[]]) inputs' (tl prompts)
            else Confirmed lines
        | Raise EOFError | Raise KeyboardInterrupt => Abandoned lines
        | Raise e => Failed e
        end
      else capture HAS_TERMIOS (lines ++ [line]) inputs' prompts
  end.

(** What the dashboard loop does after one pass. *)
Inductive control : Type :=
| Continue
| Break
| Crashed (e : exn).

(** [if lines: save_note(stampt_dir, "\n".join(lines))], lines 362-364 and
    368-369, on a file system that takes the write; [next] is what follows
    when the call returns.  An exception of [save_note] reaches the handler
    of line 377. *)
Definition save_lines (d : directory) (now : datetime) (lines : list str)
    (next : control) : directory * control :=
  match lines with
  | [] => (d, next)
  | _ :: _ =>
      match save_note d now (join nl lines) with
      | (d', Ret _) => (d', next)
      | (d', Raise e) => (d', Crashed e)
      end
  end.

(** One pass of [tui_loop] from line 346 on: [cmd] is the stripped line read
    at the dashboard, which is none of the commands. *)
Definition tui_note (HAS_TERMIOS : bool) (d : directory) (now : datetime)
    (cmd : str) (inputs : list input_result) (prompts : list console)
  : directory * control :=
  let lines := if is_empty cmd then [] else [cmd] in
  match capture HAS_TERMIOS lines inputs prompts with
  | Abandoned lines' => save_lines d now lines' Break
  | Confirmed lines' => save_lines d now lines' Continue
  | Failed e => (d, Crashed e)
  end.

(** * Vocabulary of the specification *)

(** [blank s]: every character of [s] is white space. *)
Definition blank (s : str) : Prop := Forall (fun c => is_space c = true) s.


(** [unused d c]: no file of [d] is named [c]. *)
Definition unused (d : directory) (c : str) : bool := negb (path_exists d c).

(** The names [_free_filename] may return for [base], in the order in which
    it tries them. *)
Definition candidates (base : str) : list str :=
  (base ++ ".md") :: map (versioned base) (range 1 1000).

(** [n] successive calls of [_free_filename] for one base name, the file
    returned by a call being created (empty) before the next call; the
    directory at the end and the outcome of every call. *)
Fixpoint allocate_many (n : nat) (d : directory) (base : str)
  : directory * list (result str) :=
  match n with
  | O => (d, [])
  | S n' =>
      match _free_filename d base with
      | Ret p =>
          let (d', rs) := allocate_many n' (write_text d p []) base in
          (d', Ret p :: rs)
      | Raise e =>
          let (d', rs) := allocate_many n' d base in
          (d', Raise e :: rs)
      end
  end.

(** The entries created by [allocate_many]. *)
Definition empty_file (name : str) : str * entry := (name, Text []).

(** ** Sample data *)

(** 1 January 2024, 10:00:00. *)
Definition new_year : datetime := mkDatetime 2024 1 1 10 0 0 0 0.

(** A directory in which every name [_free_filename] can return for [base]
    is taken. *)
Definition crowded (base : str) : directory := map empty_file (candidates base).

(** The first second of the year 1 and the first one after the year 9999, in
    seconds from the epoch: the clock times a [datetime] can show lie between
    them. *)
Definition FIRST_SECOND : Z := (ymd2ord 1 1 1 - 719163) * 86400.

Definition END_SECOND : Z := (ymd2ord 9999 12 31 + 1 - 719163) * 86400.

(** [local(u)] of the datetime module, for the zone whose clocks are
    [offset u] seconds ahead of UTC at the POSIX time [u]: the naive count
    of seconds that the clock shows at [u]; [None] ([ValueError]) when that
    is not in the years 1 to 9999. *)
Definition local (offset : Z -> Z) (u : Z) : option Z :=
  let t := u + offset u in
  if (FIRST_SECOND <=? t) && (t <? END_SECOND) then Some t else None.

(** The conversion that [timestamp] makes in that zone ([local_to_seconds]
    of the datetime module): it solves [local u = t] for [u], looking one
    day earlier ([fold] 0) or later ([fold] 1) for a second solution. *)
Definition zone (offset : Z -> Z) (t fold : Z) : option Z :=
  match local offset t with
  | None => None
  | Some lt =>
      let a := lt - t in
      let u1 := t - a in
      match local offset u1 with
      | None => None
      | Some t1 =>
          let other (b : Z) :=
            let u2 := t - b in
            match local offset u2 with
            | None => None
            | Some t2 =>
                if t2 =? t then Some u2
                else if t1 =? t then Some u1
                else Some (if fold =? 0 then Z.max u1 u2 else Z.min u1 u2)
            end in
          if t1 =? t then
            let u2 := if fold =? 0 then u1 - 86400 else u1 + 86400 in
            match local offset u2 with
            | None => None
            | Some lt2 =>
                let b := lt2 - u2 in
                if a =? b then Some u1 else other b
            end
          else other (t1 - u1)
      end
  end.

(** Universal time: the local clock shows POSIX time. *)
Definition utc : Z -> Z -> option Z := zone (fun _ => 0).

(** A zone two hours ahead of UTC until 27 October 2024, 01:00:00 UTC, and
    one hour ahead from then on: its clocks go from 03:00 back to 02:00 that
    day, and show the times from 02:00:00 to 02:59:59 twice. *)
Definition set_back : Z -> Z -> option Z :=
  zone (fun u => if u <? 1729990800 then 7200 else 3600).

(** 27 October 2024, 02:30:00, for the second time. *)
Definition second_passage : datetime := mkDatetime 2024 10 27 2 30 0 0 1.

(** 31 December 999, 23:59:59. *)
Definition year_999 : datetime := mkDatetime 999 12 31 23 59 59 0 0.

(** ** Digits of a timestamp *)

(** The numbers written by two and by four decimal digits, as
    [int_of_digits] computes them. *)
Definition two (a b : Z) : Z := 10 * (10 * 0 + a) + b.

Definition four (a b c d : Z) : Z :=
  10 * (10 * (10 * (10 * 0 + a) + b) + c) + d.

(** The text [YYYY-MM-DD_HH-MM-SS] with the given digits. *)
Definition stamp_text (y1 y2 y3 y4 m1 m2 d1 d2 h1 h2 n1 n2 s1 s2 : Z) : str :=
  [digit y1; digit y2; digit y3; digit y4; "-"%char; digit m1; digit m2;
   "-"%char; digit d1; digit d2; "_"%char; digit h1; digit h2; "-"%char;
   digit n1; digit n2; "-"%char; digit s1; digit s2].

(** The date and time that these digits write. *)
Definition stamp_datetime
    (y1 y2 y3 y4 m1 m2 d1 d2 h1 h2 n1 n2 s1 s2 : Z) : datetime :=
  mkDatetime (four y1 y2 y3 y4) (two m1 m2) (two d1 d2)
             (two h1 h2) (two n1 n2) (two s1 s2) 0 0.

(** [p] matches the character [c]. *)
Definition matches (p : pat_item) (c : ascii) : Prop := item_matches p c = true.

(** ** Searching *)

(** [q] occurs in [c] up to the case of the letters: some piece of [c]
    and [q] have the same lower-case form. *)
Definition contains_ci (q c : str) : Prop :=
  exists pre m post, c = pre ++ m ++ post /\ lower m = lower q.

(** The file [f] of [d] can be read and its text holds [q], case apart. *)
Definition holds_query (d : directory) (q f : str) : bool :=
  match read_text d f with
  | Ret c => str_in (lower q) (lower c)
  | Raise _ => false
  end.

(** The order of [sorted_desc]: the key of [b] is not above that of [a]. *)
Definition key_desc {A : Type} (a b : A * Z) : Prop := snd b <= snd a.

Section Order.

Variable mktime : Z -> Z -> option Z.

(** The name [f] begins with a timestamp that [_parse_ts] accepts. *)
Definition parsable (f : str) : bool :=
  match _parse_ts mktime f with
  | Some _ => true
  | None => false
  end.

Definition search_hit (d : directory) (q f : str) : bool :=
  holds_query d q f && parsable f.

(** [f] is not older than [g], for names that carry a timestamp. *)
Definition not_older (f g : str) : Prop :=
  forall zf zg, _parse_ts mktime f = Some zf ->
                _parse_ts mktime g = Some zg -> zg <= zf.

End Order.

(** A directory whose only file has a timestamp in its name but not the
    extension of a note. *)
Definition text_file : str := "2024-01-01_10-00-00.txt".

Definition stray : directory := [(text_file, Text "alpha")].

(** Two notes an hour apart, the older one listed first. *)
Definition two_notes : directory :=
  [("2024-01-01_10-00-00.md" : str, Text "alpha");
   ("2024-01-01_11-00-00.md" : str, Text "Beta")].

(** ** Consoles *)

(** A terminal on which the key [c] is pressed. *)
Definition key (c : str) : console :=
  mkConsole Eof (Ret tt) (Ret tt) (Ret c) (Ret tt).

(** A console without raw mode on which the line [s] is typed. *)
Definition typed (s : str) : console :=
  mkConsole (Line s) (Ret tt) (Ret tt) (Ret []) (Ret tt).

(** Standard input is not a terminal: [termios.tcgetattr] fails. *)
Definition not_a_tty : console :=
  mkConsole Eof (Raise TermiosError) (Ret tt) (Ret []) (Ret tt).

Definition ENTER_KEY : str := ["013"%char].

(** The lines gathered before the loop starts (lines 347-349). *)
Definition seed (cmd : str) : list str := if is_empty cmd then [] else [cmd].


(** The lines of the scenario, and what is saved from them. *)
Definition first_second : list str :=
  [("first" : str); ([] : str); ("second" : str)].

Definition first_second_text : str := "first" ++ nl ++ nl ++ "second" ++ nl.


(** * Views, clipboard and the dashboard loop *)

(** The functions below print; what they print is kept as a value that
    holds the names, counts and texts interpolated in the messages, without
    the colours and the frame. *)

(** ** Previews *)

(** [content.split('\n')[0]]: the text before the first newline. *)
Fixpoint first_line (s : str) : str :=
  match s with
  | [] => []
  | c :: s' => if Ascii.eqb c LF then [] else c :: first_line s'
  end.

(** [if len(preview) > width: preview = preview[:keep] + "..."], lines
    271-272 (60 and 57) and 303-304 (80 and 77). *)
Definition shorten (width keep : nat) (preview : str) : str :=
  if (width <? List.length preview)%nat
  then firstn keep preview ++ "..."
  else preview.

(** One note of a listing: its name with the preview of its content, or the
    report that it cannot be read (lines 268-277 and 299-310). *)
Inductive item : Type :=
| Preview (name preview : str)
| ItemError (name : str).

Definition show_item (d : directory) (width keep : nat) (note : str) : item :=
  match read_text d note with
  | Ret content => Preview note (shorten width keep (first_line content))
  | Raise _ => ItemError note
  end.

(** The name shown on the line of an item. *)
Definition item_name (it : item) : str :=
  match it with
  | Preview name _ | ItemError name => name
  end.

(** What [list_notes] prints: "No notes yet", or the number of notes, the
    number shown and the notes shown. *)
Inductive list_view : Type :=
| ListEmpty
| Listed (total shown : nat) (items : list item).

(** What [search_and_display] prints. *)
Inductive search_view : Type :=
| NoMatch (query : str)
| Matches (found : nat) (query : str) (items : list item).

(** What [show_last_note] prints. *)
Inductive last_view : Type :=
| NoLast
| LastShown (name content : str)
| LastUnreadable (name : str).

(** What [copy_last] prints. *)
Inductive copy_message : Type :=
| NoClipboard
| NothingToCopy
| Copied (name : str)
| CopyError.

Section Views.

Variable mktime : Z -> Z -> option Z.

(** [sorted_files] of lines 255-258: the notes, most recent first. *)
Definition sorted_files (d : directory) : list str :=
  map fst (sorted_desc (stamped mktime (glob_md d))).

(** [list_notes(directory, limit)], lines 247-279, for a limit that is not
    negative. *)
Definition list_notes (d : directory) (limit : nat) : list_view :=
  let files := sorted_files d in
  if (List.length files =? 0)%nat then ListEmpty
  else Listed (List.length files) (Nat.min limit (List.length files))
              (map (show_item d 60 57) (firstn limit files)).

(** [search_and_display(stampt_dir, query)], lines 282-310. *)
Definition search_and_display (d : directory) (query : str) : search_view :=
  let matches := fst (search_notes mktime d query) in
  if (List.length matches =? 0)%nat then NoMatch query
  else Matches (List.length matches) query
               (map (show_item d 80 77) (firstn 10 matches)).

(** [show_last_note(stampt_dir)], lines 226-244. *)
Definition show_last_note (d : directory) : last_view :=
  match newest_note mktime d with
  | None => NoLast
  | Some note =>
      match read_text d note with
      | Ret content => LastShown note (rstrip content)
      | Raise _ => LastUnreadable note
      end
  end.

(** [copy_last(directory)], lines 142-158.  [HAS_CLIPBOARD] is the flag of
    lines 27-31, [clipboard] the text on the system clipboard and [copy_ok]
    tells whether [pyperclip.copy] succeeds; the result is the clipboard
    after the call with the message printed. *)
Definition copy_last (HAS_CLIPBOARD copy_ok : bool) (d : directory)
    (clipboard : str) : str * copy_message :=
  if negb HAS_CLIPBOARD then (clipboard, NoClipboard)
  else
    match newest_note mktime d with
    | None => (clipboard, NothingToCopy)
    | Some note =>
        match read_text d note with
        | Ret content =>
            if copy_ok then (content, Copied note) else (clipboard, CopyError)
        | Raise _ => (clipboard, CopyError)
        end
    end.

End Views.

(** ** Dashboard loop *)

(** The loop of lines 351-360 as [capture] models it, with what is left of
    the inputs and of the consoles when it ends. *)
Fixpoint capture_from (HAS_TERMIOS : bool) (lines : list str)
    (inputs : list input_result) (prompts : list console)
  : capture_end * list input_result * list console :=
  match inputs with
  | [] => (Abandoned lines, [], prompts)
  | Eof :: inputs' | Interrupt :: inputs' => (Abandoned lines, inputs', prompts)
  | Line line :: inputs' =>
      if is_empty (strip line) then
        match prompt_blank_line_action HAS_TERMIOS (hd at_eof prompts) with
        | Ret action =>
            if str_eqb action "ctrlx"
            then capture_from HAS_TERMIOS (lines ++ [[]]) inputs' (tl prompts)
            else (Confirmed lines, inputs', tl prompts)
        | Raise EOFError | Raise KeyboardInterrupt =>
            (Abandoned lines, inputs', tl prompts)
        | Raise e => (Failed e, inputs', tl prompts)
        end
      else capture_from HAS_TERMIOS (lines ++ [line]) inputs' prompts
  end.

(** [cmd.lower() in {"exit", "quit", ":q"}], line 326. *)
Definition is_exit (cmd : str) : bool :=
  let c := lower cmd in
  str_eqb c "exit" || str_eqb c "quit" || str_eqb c ":q".

(** The test of line 339. *)
Definition is_search (cmd : str) : bool :=
  startswith (lower cmd) "search " || startswith (lower cmd) "/".

(** [cmd[7:] if cmd.startswith("search ") else cmd[1:]], line 340. *)
Definition search_query (cmd : str) : str :=
  if startswith cmd "search " then skipn 7 cmd else skipn 1 cmd.

(** What the loop acts on: the notes, the clipboard, and the number of
    calls of [save_note] made so far, which tells the clock reading of the
    next one. *)
Record world : Type := mkWorld {
  notes : directory;
  clipboard : str;
  saves : nat
}.

(** How [tui_loop] ends: by a [break] ("Bye"), in the handler of line 377,
    or with an exception that this handler does not catch.  [OutOfFuel] is
    not an ending of the program: it tells that the bound on the number of
    passes was too small. *)
Inductive ending : Type :=
| Bye
| Unexpected (e : exn)
| Escaped (e : exn)
| OutOfFuel.

Section Dashboard.

Variable mktime : Z -> Z -> option Z.
Variables HAS_TERMIOS HAS_CLIPBOARD copy_ok : bool.

(** The reading of the clock at each call of [save_note]. *)
Variable clock : nat -> datetime.

(** [input("\nPress Enter to continue...")], lines 335 and 343, followed by
    [continue]: [next] is the following pass.  The call is outside the [try]
    of line 351: [EOFError] reaches the handler of line 377 and
    [KeyboardInterrupt] leaves the function. *)
Definition press_enter (w : world) (inputs : list input_result)
    (next : list input_result -> world * ending) : world * ending :=
  match inputs with
  | [] | Eof :: _ => (w, Unexpected EOFError)
  | Interrupt :: _ => (w, Escaped KeyboardInterrupt)
  | Line _ :: inputs' => next inputs'
  end.

(** The call of [save_note] on the lines gathered (lines 362-364 and
    368-369) in the world [w]. *)
Definition save_in (w : world) (lines : list str) (next : control)
  : world * control :=
  match lines with
  | [] => (w, next)
  | _ :: _ =>
      let (d', c) := save_lines (notes w) (clock (saves w)) lines next in
      (mkWorld d' (clipboard w) (S (saves w)), c)
  end.

(** [tui_loop(stampt_dir)], lines 314-379, for at most [fuel] passes of the
    [while] of line 317.  [inputs] are the outcomes of the successive calls
    of [input], the input being at its end when they are used up.
    [show_dashboard] (line 318), [list_notes] and [search_and_display] only
    print and handle their read errors themselves; the pauses of lines 331
    and 375 are left out. *)
Fixpoint tui_loop_fuel (fuel : nat) (w : world) (inputs : list input_result)
    (prompts : list console) : world * ending :=
  match fuel with
  | O => (w, OutOfFuel)
  | S fuel' =>
      match inputs with
      | [] | Eof :: _ | Interrupt :: _ => (w, Bye)
      | Line raw :: inputs1 =>
          let cmd := strip raw in
          if is_exit cmd then (w, Bye)
          else if str_eqb (lower cmd) "copy" then
            let (clip', _) :=
              copy_last mktime HAS_CLIPBOARD copy_ok (notes w) (clipboard w) in
            tui_loop_fuel fuel' (mkWorld (notes w) clip' (saves w))
                          inputs1 prompts
          else if str_eqb (lower cmd) "list" then
            press_enter w inputs1
                        (fun rest => tui_loop_fuel fuel' w rest prompts)
          else if is_search cmd then
            if negb (is_empty (strip (search_query cmd))) then
              press_enter w inputs1
                          (fun rest => tui_loop_fuel fuel' w rest prompts)
            else tui_loop_fuel fuel' w inputs1 prompts
          else
            match capture_from HAS_TERMIOS (seed cmd) inputs1 prompts with
            | (Abandoned lines, _, _) =>
                match save_in w lines Break with
                | (w', Crashed e) => (w', Unexpected e)
                | (w', _) => (w', Bye)
                end
            | (Confirmed lines, inputs2, prompts2) =>
                match save_in w lines Continue with
                | (w', Crashed e) => (w', Unexpected e)
                | (w', _) => tui_loop_fuel fuel' w' inputs2 prompts2
                end
            | (Failed e, _, _) => (w, Unexpected e)
            end
      end
  end.

(** [tui_loop]: one pass more than there are inputs is enough, as every
    pass that does not end the loop reads at least one input. *)
Definition tui_loop (w : world) (inputs : list input_result)
    (prompts : list console) : world * ending :=
  tui_loop_fuel (S (List.length inputs)) w inputs prompts.

End Dashboard.

(** ** More vocabulary *)

(** Every note of [d] is older than [z]. *)
Definition all_older (mktime : Z -> Z -> option Z) (d : directory) (z : Z)
  : Prop :=
  forall f y, In f (glob_md d) -> _parse_ts mktime f = Some y -> y < z.

(** A clock that always shows 1 January 2024, 10:00:00. *)
Definition stopped_clock (k : nat) : datetime := new_year.

(** A world with no notes and an empty clipboard. *)
Definition fresh : world := mkWorld [] [] 0.

(** [t.replace(microsecond=0, fold=0)]: the date and the clock time of [t]
    to the second, which is all that the name of a note keeps of [t]. *)
Definition truncated (t : datetime) : datetime :=
  mkDatetime (year t) (month t) (day t) (hour t) (minute t) (second t) 0 0.

(** 1 January 2024, 12:00:00, after the two notes of [two_notes]. *)
Definition noon : datetime := mkDatetime 2024 1 1 12 0 0 0 0.

(** A reading of the clock later in the second of [new_year]. *)
Definition new_year_later : datetime :=
  mkDatetime 2024 1 1 10 0 0 250000 0.

(** [e] is an ending of the program, not the exhaustion of the bound. *)
Definition ended (e : ending) : bool :=
  match e with
  | OutOfFuel => false
  | _ => true
  end.


(** * Properties *)

(** ** Strings *)

Lemma str_eqb_eq (a b : str) : str_eqb a b = true <-> a = b.
Proof.
  revert b; induction a as [|x a IH]; intros [|y b]; simpl;
    try (split; [discriminate | congruence]); try tauto.
  rewrite andb_true_iff, Ascii.eqb_eq, IH.
  split; [intros [-> ->]; reflexivity | intros H; inversion H; auto].
Qed.

Lemma str_eqb_refl (a : str) : str_eqb a a = true.
Proof. apply str_eqb_eq; reflexivity. Qed.

Lemma str_eqb_neq (a b : str) : str_eqb a b = false <-> a <> b.
Proof.
  rewrite <- str_eqb_eq. destruct (str_eqb a b); split; congruence.
Qed.

Lemma is_empty_true (s : str) : is_empty s = true <-> s = [].
Proof. destruct s; simpl; split; congruence. Qed.

Lemma is_empty_false (s : str) : is_empty s = false <-> s <> [].
Proof. destruct s; simpl; split; congruence. Qed.

Lemma lstrip_blank (w s : str) : blank w -> lstrip (w ++ s) = lstrip s.
Proof.
  induction 1 as [|c w Hc _ IH]; simpl; [reflexivity|].
  rewrite Hc; exact IH.
Qed.

Lemma lstrip_nil_blank (s : str) : lstrip s = [] <-> blank s.
Proof.
  induction s as [|c s IH]; simpl.
  - split; [constructor | reflexivity].
  - destruct (is_space c) eqn:Hc.
    + rewrite IH. split; [constructor; assumption | inversion 1; assumption].
    + split; [discriminate | inversion 1; congruence].
Qed.




Lemma lstrip_idem (s : str) : lstrip (lstrip s) = lstrip s.
Proof.
  induction s as [|x s IH]; simpl; [reflexivity|].
  destruct (is_space x) eqn:Hx; [exact IH|]. simpl; rewrite Hx; reflexivity.
Qed.

Lemma blank_rev (s : str) : blank s -> blank (rev s).
Proof. apply Forall_rev. Qed.

Lemma blank_app (a b : str) : blank a -> blank b -> blank (a ++ b).
Proof. intros; apply Forall_app; split; assumption. Qed.

Lemma rstrip_blank (s w : str) : blank w -> rstrip (s ++ w) = rstrip s.
Proof.
  intros Hw. unfold rstrip. rewrite rev_app_distr, lstrip_blank; auto using blank_rev.
Qed.

Lemma rstrip_nil_blank (s : str) : rstrip s = [] <-> blank s.
Proof.
  unfold rstrip. split.
  - intros H. apply (f_equal (@rev ascii)) in H. rewrite rev_involutive in H.
    simpl in H. apply lstrip_nil_blank in H. rewrite <- (rev_involutive s).
    apply blank_rev; exact H.
  - intros H. apply blank_rev, lstrip_nil_blank in H. rewrite H; reflexivity.
Qed.

Lemma strip_blank_iff (s : str) : strip s = [] <-> blank s.
Proof.
  unfold strip. rewrite rstrip_nil_blank. split.
  - intros H. induction s as [|c s IH]; [constructor|].
    simpl in H. destruct (is_space c) eqn:Hc.
    + constructor; [exact Hc | apply IH; exact H].
    + inversion H; congruence.
  - intros H. apply lstrip_nil_blank in H. rewrite H; constructor.
Qed.





(** ** Directory *)

Lemma path_exists_app (d d' : directory) (n : str) :
  path_exists (d ++ d') n = path_exists d n || path_exists d' n.
Proof. apply existsb_app. Qed.

Lemma path_exists_lookup (d : directory) (n : str) :
  path_exists d n = true <-> lookup d n <> None.
Proof.
  induction d as [|[m e] d IH]; simpl.
  - split; [discriminate | congruence].
  - destruct (str_eqb m n); simpl; [split; [discriminate | reflexivity] | exact IH].
Qed.

Lemma path_exists_names (d : directory) (n : str) :
  path_exists d n = true <-> In n (map fst d).
Proof.
  unfold path_exists. rewrite existsb_exists, in_map_iff. split.
  - intros (e & He & Heq). apply str_eqb_eq in Heq. exists e; auto.
  - intros (e & Heq & He). exists e; split; [exact He | apply str_eqb_eq; exact Heq].
Qed.

Lemma lookup_fresh (d : directory) (n : str) (e : entry) :
  path_exists d n = false -> lookup (d ++ [(n, e)]) n = Some e.
Proof.
  induction d as [|[m x] d IH]; simpl.
  - intros _. rewrite str_eqb_refl; reflexivity.
  - destruct (str_eqb m n); simpl; [discriminate | exact IH].
Qed.

Lemma write_text_fresh (d : directory) (n c : str) :
  path_exists d n = false -> write_text d n c = d ++ [(n, Text c)].
Proof. unfold write_text; intros ->; reflexivity. Qed.

Lemma lookup_app (d d' : directory) (n : str) :
  lookup (d ++ d') n
  = match lookup d n with
    | Some e => Some e
    | None => lookup d' n
    end.
Proof.
  induction d as [|[m x] d IH]; [reflexivity|].
  cbn [app lookup]. destruct (str_eqb m n); [reflexivity | exact IH].
Qed.

Lemma lookup_none (d : directory) (n : str) :
  path_exists d n = false <-> lookup d n = None.
Proof.
  pose proof (path_exists_lookup d n) as H.
  destruct (path_exists d n), (lookup d n); split; intros E;
    try reflexivity; try discriminate.
  - exfalso. apply (proj1 H); reflexivity.
  - exfalso. assert (Some e <> None) by discriminate. apply H in H0.
    discriminate.
Qed.

(** A new file listed at any place: it is found under its name, and the
    other names give what they gave. *)
Lemma lookup_place_new (slot : nat) (d : directory) (n c : str) :
  path_exists d n = false -> lookup (place slot d n c) n = Some (Text c).
Proof.
  intros H. unfold place. rewrite lookup_app.
  assert (Hf : lookup (firstn slot d) n = None).
  { apply lookup_none. rewrite <- (firstn_skipn slot d), path_exists_app in H.
    apply orb_false_iff in H. tauto. }
  rewrite Hf. cbn [lookup]. rewrite str_eqb_refl. reflexivity.
Qed.

Lemma lookup_place_other (slot : nat) (d : directory) (n c m : str) :
  m <> n -> lookup (place slot d n c) m = lookup d m.
Proof.
  intros H. unfold place. rewrite <- (firstn_skipn slot d) at 3.
  rewrite !lookup_app. cbn [lookup].
  assert (E : str_eqb n m = false) by (apply str_eqb_neq; congruence).
  rewrite E. reflexivity.
Qed.

Lemma path_exists_place (slot : nat) (d : directory) (n c m : str) :
  path_exists (place slot d n c) m = str_eqb n m || path_exists d m.
Proof.
  unfold place. rewrite <- (firstn_skipn slot d) at 3.
  rewrite !path_exists_app. unfold path_exists at 2. cbn [existsb fst].
  fold (path_exists (skipn slot d) m).
  destruct (path_exists (firstn slot d) m), (str_eqb n m); reflexivity.
Qed.

Lemma place_last (d : directory) (n c : str) :
  place (List.length d) d n c = d ++ [(n, Text c)].
Proof. unfold place. rewrite firstn_all, skipn_all. reflexivity. Qed.

(** *** Universal newlines *)

Lemma universal_newlines_plain (s : str) :
  ~ In CR s -> universal_newlines s = s.
Proof.
  induction s as [|c s IH]; [reflexivity|].
  intros H. cbn [universal_newlines].
  destruct (Ascii.eqb_spec c CR) as [->|Hc].
  - exfalso. apply H. left. reflexivity.
  - f_equal. apply IH. intros Hin. apply H. right. exact Hin.
Qed.

Lemma lstrip_incl (s : str) (c : ascii) : In c (lstrip s) -> In c s.
Proof.
  induction s as [|x s IH]; [intros []|].
  cbn [lstrip]. destruct (is_space x); [|exact (fun H => H)].
  intros H. right. apply IH. exact H.
Qed.

Lemma strip_incl (s : str) (c : ascii) : In c (strip s) -> In c s.
Proof.
  unfold strip, rstrip. intros H.
  apply in_rev in H. apply lstrip_incl in H. apply in_rev in H.
  apply lstrip_incl in H. exact H.
Qed.

Lemma saved_text_plain (text : str) :
  ~ In CR text -> universal_newlines (strip text ++ nl) = strip text ++ nl.
Proof.
  intros H. apply universal_newlines_plain. intros Hin.
  apply in_app_or in Hin. destruct Hin as [Hin|[Hin|[]]].
  - apply H. apply strip_incl. exact Hin.
  - discriminate Hin.
Qed.

(** ** Allocation of file names *)

Lemma find_cons {A : Type} (f : A -> bool) (x : A) (l : list A) :
  find f (x :: l) = if f x then Some x else find f l.
Proof. reflexivity. Qed.

Lemma probe_find (d : directory) (base : str) (ixs : list nat) :
  probe d base ixs =
  match find (unused d) (map (versioned base) ixs) with
  | Some c => Ret c
  | None => Raise too_many
  end.
Proof.
  induction ixs as [|i ixs IH]; simpl; [reflexivity|].
  unfold unused at 1. destruct (negb (path_exists d (versioned base i))); auto.
Qed.

Lemma free_filename_find (d : directory) (base : str) :
  _free_filename d base =
  match find (unused d) (candidates base) with
  | Some c => Ret c
  | None => Raise too_many
  end.
Proof.
  unfold _free_filename, candidates. cbv zeta. rewrite find_cons.
  unfold unused at 1. destruct (negb (path_exists d (base ++ ".md"))); [reflexivity|].
  apply probe_find.
Qed.

Lemma find_first {A : Type} (f : A -> bool) (l1 : list A) (x : A) (l2 : list A) :
  (forall y, In y l1 -> f y = false) -> f x = true ->
  find f (l1 ++ x :: l2) = Some x.
Proof.
  intros H1 Hx. induction l1 as [|y l1 IH]; simpl.
  - rewrite Hx; reflexivity.
  - rewrite (H1 y) by (left; reflexivity). apply IH.
    intros z Hz; apply H1; right; exact Hz.
Qed.

Lemma free_filename_fresh (d : directory) (base p : str) :
  _free_filename d base = Ret p ->
  In p (candidates base) /\ path_exists d p = false.
Proof.
  rewrite free_filename_find.
  destruct (find (unused d) (candidates base)) as [c|] eqn:Hf; [|discriminate].
  intros H; inversion H; subst c. apply find_some in Hf.
  destruct Hf as [Hin Hu]. split; [exact Hin|].
  unfold unused in Hu. apply negb_true_iff in Hu; exact Hu.
Qed.


Lemma free_filename_some (d : directory) (base c : str) :
  In c (candidates base) -> path_exists d c = false ->
  exists p, _free_filename d base = Ret p.
Proof.
  intros Hin Hc. rewrite free_filename_find.
  destruct (find (unused d) (candidates base)) as [p|] eqn:Hf; [eauto|].
  pose proof (find_none _ _ Hf c Hin) as Hn. unfold unused in Hn.
  rewrite Hc in Hn; discriminate.
Qed.

Lemma free_filename_none (d : directory) (base : str) :
  (forall c, In c (candidates base) -> path_exists d c = true) ->
  _free_filename d base = Raise too_many.
Proof.
  intros Hall. rewrite free_filename_find.
  destruct (find (unused d) (candidates base)) as [p|] eqn:Hf; [|reflexivity].
  apply find_some in Hf. destruct Hf as [Hin Hu].
  unfold unused in Hu. rewrite (Hall p Hin) in Hu; discriminate.
Qed.

(** *** The candidates are pairwise distinct *)

Lemma str_of_uint_inj (a b : Decimal.uint) :
  str_of_uint a = str_of_uint b -> a = b.
Proof.
  revert b; induction a; intros b; destruct b; simpl; intros H;
    try reflexivity; try discriminate H;
    injection H as H; f_equal; auto.
Qed.

Lemma str_of_nat_inj (i j : nat) : str_of_nat i = str_of_nat j -> i = j.
Proof.
  unfold str_of_nat. intros H. apply str_of_uint_inj in H.
  apply DecimalNat.Unsigned.to_uint_inj; exact H.
Qed.

Lemma versioned_inj (base : str) (i j : nat) :
  versioned base i = versioned base j -> i = j.
Proof.
  unfold versioned. intros H. apply app_inv_head in H.
  apply app_inv_head in H. apply app_inv_tail in H.
  apply str_of_nat_inj; exact H.
Qed.

Lemma versioned_not_plain (base : str) (i : nat) :
  base ++ ".md" <> versioned base i.
Proof.
  unfold versioned. intros H. apply app_inv_head in H. discriminate H.
Qed.

Lemma NoDup_map_inj {A B : Type} (f : A -> B) (l : list A) :
  (forall x y, f x = f y -> x = y) -> NoDup l -> NoDup (map f l).
Proof.
  intros Hinj. induction 1 as [|x l Hx _ IH]; simpl; constructor; auto.
  rewrite in_map_iff. intros (y & Hy & Hin). apply Hinj in Hy. congruence.
Qed.

Lemma candidates_NoDup (base : str) : NoDup (candidates base).
Proof.
  unfold candidates. constructor.
  - rewrite in_map_iff. intros (i & Hi & _).
    symmetry in Hi. exact (versioned_not_plain base i Hi).
  - apply NoDup_map_inj.
    + intros i j; apply versioned_inj.
    + apply seq_NoDup.
Qed.

Lemma candidates_length (base : str) : List.length (candidates base) = 1000%nat.
Proof.
  unfold candidates. cbn [List.length]. rewrite length_map.
  unfold range. rewrite length_seq. reflexivity.
Qed.

(** *** Repeated allocation *)

Lemma allocate_many_prefix (base : str) (n : nat) :
  forall (d : directory) (done todo : list str),
    candidates base = done ++ todo ->
    (forall c, In c done -> path_exists d c = true) ->
    (forall c, In c todo -> path_exists d c = false) ->
    (n <= List.length todo)%nat ->
    allocate_many n d base
    = (d ++ map empty_file (firstn n todo), map Ret (firstn n todo)).
Proof.
  induction n as [|n IH]; intros d done todo Hc Hdone Htodo Hn.
  - simpl. rewrite app_nil_r; reflexivity.
  - destruct todo as [|c todo]; [simpl in Hn; lia|].
    assert (Hfree : _free_filename d base = Ret c).
    { rewrite free_filename_find, Hc. rewrite find_first; [reflexivity| |].
      - intros y Hy. unfold unused. rewrite (Hdone y Hy); reflexivity.
      - unfold unused. rewrite (Htodo c) by (left; reflexivity). reflexivity. }
    simpl allocate_many. rewrite Hfree.
    rewrite write_text_fresh by (apply Htodo; left; reflexivity).
    pose proof (candidates_NoDup base) as Hnd. rewrite Hc in Hnd.
    apply NoDup_remove_2 in Hnd.
    rewrite (IH (d ++ [(c, Text [])]) (done ++ [c]) todo).
    + simpl firstn. simpl map. rewrite <- app_assoc. reflexivity.
    + rewrite Hc, <- app_assoc; reflexivity.
    + intros x Hx. rewrite path_exists_app. apply in_app_or in Hx.
      destruct Hx as [Hx|[Hx|[]]].
      * rewrite (Hdone x Hx); reflexivity.
      * subst x. simpl. rewrite str_eqb_refl. apply orb_true_r.
    + intros x Hx. rewrite path_exists_app.
      rewrite (Htodo x) by (right; exact Hx). simpl.
      rewrite orb_false_r. apply str_eqb_neq. intros ->.
      apply Hnd. apply in_or_app; right; exact Hx.
    + simpl in Hn; lia.
Qed.

Lemma in_candidates (base c : str) :
  In c (candidates base) <->
  c = base ++ ".md" \/ exists j, (1 <= j <= 999)%nat /\ c = versioned base j.
Proof.
  unfold candidates, range. cbn [In]. rewrite in_map_iff. split.
  - intros [H|(j & Hj & Hin)]; [left; auto|].
    right. exists j. apply in_seq in Hin. split; [lia | auto].
  - intros [H|(j & Hj & Hc)]; [left; auto|].
    right. exists j. split; [auto|]. apply in_seq. lia.
Qed.

Lemma probe_first (d : directory) (base : str) (k n : nat) :
  forall a, (a <= k < a + n)%nat ->
    (forall j, (a <= j < k)%nat -> path_exists d (versioned base j) = true) ->
    path_exists d (versioned base k) = false ->
    probe d base (seq a n) = Ret (versioned base k).
Proof.
  induction n as [|n IH]; intros a Hk Hbelow Hfree; [lia|].
  cbn [seq probe]. destruct (Nat.eq_dec a k) as [->|Hne].
  - rewrite Hfree. reflexivity.
  - rewrite (Hbelow a) by lia. cbn [negb]. apply IH; [lia| |exact Hfree].
    intros j Hj. apply Hbelow. lia.
Qed.

Lemma probe_none (d : directory) (base : str) (n : nat) :
  forall a,
    (forall j, (a <= j < a + n)%nat -> path_exists d (versioned base j) = true) ->
    probe d base (seq a n) = Raise too_many.
Proof.
  induction n as [|n IH]; intros a Hall; [reflexivity|].
  cbn [seq probe]. rewrite (Hall a) by lia. cbn [negb]. apply IH.
  intros j Hj. apply Hall. lia.
Qed.

Lemma allocate_many_S (n : nat) (d : directory) (base : str) :
  allocate_many (S n) d base =
  match _free_filename d base with
  | Ret p =>
      let (d', rs) := allocate_many n (write_text d p []) base in
      (d', Ret p :: rs)
  | Raise e =>
      let (d', rs) := allocate_many n d base in (d', Raise e :: rs)
  end.
Proof. reflexivity. Qed.

Lemma allocate_many_add (base : str) (n m : nat) :
  forall d,
    allocate_many (n + m) d base =
    let (d1, r1) := allocate_many n d base in
    let (d2, r2) := allocate_many m d1 base in
    (d2, r1 ++ r2).
Proof.
  induction n as [|n IH]; intros d.
  - cbn [Nat.add allocate_many]. destruct (allocate_many m d base); reflexivity.
  - cbn [Nat.add]. rewrite !allocate_many_S.
    destruct (_free_filename d base) as [p|e].
    + rewrite IH. destruct (allocate_many n (write_text d p []) base) as [d1 r1].
      destruct (allocate_many m d1 base); reflexivity.
    + rewrite IH. destruct (allocate_many n d base) as [d1 r1].
      destruct (allocate_many m d1 base); reflexivity.
Qed.

Lemma crowded_names (base : str) : map fst (crowded base) = candidates base.
Proof.
  unfold crowded. rewrite map_map. unfold empty_file. cbn [fst]. apply map_id.
Qed.

(** From a directory that holds none of the candidates, a thousand calls
    take them all, in order, and the next call fails. *)
Lemma allocate_many_exhausts (d : directory) (base : str) :
  (forall c, In c (candidates base) -> path_exists d c = false) ->
  allocate_many 1000 d base
  = (d ++ crowded base, map Ret (candidates base))
  /\ _free_filename (d ++ crowded base) base = Raise too_many.
Proof.
  intros Hfree. split.
  - rewrite (allocate_many_prefix base 1000 d [] (candidates base)).
    + rewrite firstn_all2 by (rewrite candidates_length; lia). reflexivity.
    + reflexivity.
    + intros c [].
    + exact Hfree.
    + rewrite candidates_length; lia.
  - apply free_filename_none. intros c Hc. rewrite path_exists_app.
    apply orb_true_iff; right. apply path_exists_names.
    rewrite crowded_names; exact Hc.
Qed.

(** **** C2, as stated, fails: the thousandth call succeeds *)

(** C2 (counterexample).  In an empty directory, the thousandth of a
    thousand successive calls for the base name [n] does not signal the
    error: it returns [n_v999.md]. *)
Lemma free_filename_thousandth_call :
  nth_error (snd (allocate_many 1000 [] "n")) 999 = Some (Ret ("n_v999.md" : str))
  /\ nth_error (snd (allocate_many 1000 [] "n")) 999 <> Some (Raise too_many).
Proof.
  assert (H : nth_error (snd (allocate_many 1000 [] "n")) 999
              = Some (Ret ("n_v999.md" : str))).
  { destruct (allocate_many_exhausts [] "n") as [-> _]; [reflexivity|].
    cbn [snd]. rewrite nth_error_map. vm_compute. reflexivity. }
  split; [exact H | rewrite H; discriminate].
Qed.

(** C2 (amended).  [_free_filename] returns [base.md] when no such file
    exists; otherwise it returns the first of [base_v1.md] ... [base_v999.md]
    that does not exist, and raises the error "too many versions" when all of
    them exist.  Called again and again for one base name from a directory
    that holds none of these names, each returned file being created, it
    succeeds a thousand times (with [base.md], [base_v1.md], ...,
    [base_v999.md]) and raises the error at the 1001st call. *)
Theorem free_filename_versions (d : directory) (base : str) :
  (path_exists d (base ++ ".md") = false ->
   _free_filename d base = Ret (base ++ ".md"))
  /\ (forall k, (1 <= k <= 999)%nat ->
        path_exists d (base ++ ".md") = true ->
        (forall j, (1 <= j < k)%nat ->
                   path_exists d (versioned base j) = true) ->
        path_exists d (versioned base k) = false ->
        _free_filename d base = Ret (versioned base k))
  /\ (path_exists d (base ++ ".md") = true ->
      (forall j, (1 <= j <= 999)%nat ->
                 path_exists d (versioned base j) = true) ->
      _free_filename d base = Raise too_many)
  /\ ((forall c, In c (candidates base) -> path_exists d c = false) ->
      allocate_many 1001 d base
      = (d ++ crowded base, map Ret (candidates base) ++ [Raise too_many])
      /\ List.length (candidates base) = 1000%nat).
Proof.
  split; [|split; [|split]].
  - intros H. unfold _free_filename. cbv zeta. rewrite H. reflexivity.
  - intros k Hk Hplain Hbelow Hfree. unfold _free_filename, range. cbv zeta.
    rewrite Hplain. cbn [negb]. apply probe_first; [lia | | exact Hfree].
    intros j Hj. apply Hbelow. lia.
  - intros Hplain Hall. unfold _free_filename, range. cbv zeta.
    rewrite Hplain. cbn [negb]. apply probe_none.
    intros j Hj. apply Hall. lia.
  - intros H. split; [|apply candidates_length].
    destruct (allocate_many_exhausts d base H) as [H1000 Hnext].
    change 1001%nat with (1000 + 1)%nat. rewrite allocate_many_add, H1000.
    rewrite allocate_many_S, Hnext. reflexivity.
Qed.

Lemma crowded_taken (base c : str) :
  In c (candidates base) -> path_exists (crowded base) c = true.
Proof.
  intros Hc. apply path_exists_names. rewrite crowded_names. exact Hc.
Qed.

(** C2 (witness): the four parts at concrete directories. *)
Lemma free_filename_versions_witness :
  _free_filename [] "n" = Ret ("n.md" : str)
  /\ _free_filename [empty_file "n.md"; empty_file "n_v1.md"] "n"
     = Ret (versioned "n" 2)
  /\ _free_filename (crowded "n") "n" = Raise too_many
  /\ allocate_many 1001 [] "n"
     = (crowded "n", map Ret (candidates "n") ++ [Raise too_many]).
Proof.
  split; [|split; [|split]].
  - apply (proj1 (free_filename_versions [] "n")). reflexivity.
  - apply (proj1 (proj2 (free_filename_versions
                           [empty_file "n.md"; empty_file "n_v1.md"] "n")) 2%nat).
    + lia.
    + reflexivity.
    + intros j Hj. assert (j = 1%nat) as -> by lia. reflexivity.
    + reflexivity.
  - apply (proj1 (proj2 (proj2 (free_filename_versions (crowded "n") "n")))).
    + apply crowded_taken, in_candidates. left; reflexivity.
    + intros j Hj. apply crowded_taken, in_candidates. right; eauto.
  - apply (proj2 (proj2 (proj2 (free_filename_versions [] "n")))).
    intros c _. reflexivity.
Defined.

(** ** Saving a note *)

Lemma save_note_blank (d : directory) (now : datetime) (text : str) :
  strip text = [] -> save_note d now text = (d, Ret None).
Proof.
  intros H. unfold save_note. rewrite H. cbn [is_empty].
  rewrite orb_true_r. reflexivity.
Qed.

Lemma strip_nonempty (text : str) : strip text <> [] -> text <> [].
Proof. intros H ->. apply H. reflexivity. Qed.

Lemma save_note_nonblank (d : directory) (now : datetime) (text : str) :
  strip text <> [] ->
  save_note d now text =
  match _free_filename d (_now_ts now) with
  | Raise e => (d, Raise e)
  | Ret p => (write_text d p (strip text ++ nl), Ret (Some p))
  end.
Proof.
  intros H. unfold save_note.
  apply is_empty_false in H. rewrite H.
  destruct text as [|c text]; [discriminate H|]. reflexivity.
Qed.

(** What [save_note] returns depends on the text through [strip] only. *)
Lemma save_note_strip (d : directory) (now : datetime) (t1 t2 : str) :
  strip t1 = strip t2 -> save_note d now t1 = save_note d now t2.
Proof.
  intros H. destruct (strip t2) as [|c r] eqn:H2.
  - rewrite !save_note_blank; auto.
  - rewrite !save_note_nonblank by congruence. rewrite H, H2. reflexivity.
Qed.

Lemma save_note_written (d : directory) (now : datetime) (text p : str) :
  strip text <> [] -> _free_filename d (_now_ts now) = Ret p ->
  path_exists d p = false
  /\ save_note d now text = (d ++ [(p, Text (strip text ++ nl))], Ret (Some p))
  /\ lookup (fst (save_note d now text)) p = Some (Text (strip text ++ nl)).
Proof.
  intros Hne Hfree. rewrite save_note_nonblank, Hfree by assumption.
  apply free_filename_fresh in Hfree. destruct Hfree as [_ Hfresh].
  rewrite write_text_fresh by assumption. cbn [fst].
  split; [assumption | split; [reflexivity|]].
  apply lookup_fresh. assumption.
Qed.

(** [save_note_under]: the same cases, whatever becomes of the write. *)
Lemma save_note_under_blank (os : write_outcome) (d : directory)
    (now : datetime) (text : str) :
  strip text = [] -> save_note_under os d now text = (d, Returns None).
Proof.
  intros H. unfold save_note_under. rewrite H. cbn [is_empty].
  rewrite orb_true_r. reflexivity.
Qed.

Lemma save_note_under_nonblank (os : write_outcome) (d : directory)
    (now : datetime) (text : str) :
  strip text <> [] ->
  save_note_under os d now text =
  match _free_filename d (_now_ts now) with
  | Raise e => (d, Raises e)
  | Ret p =>
      match os with
      | Written slot => (place slot d p (strip text ++ nl), Returns (Some p))
      | EncodeFails slot => (place slot d p [], Raises UnicodeEncodeError)
      | Refused => (d, Exits 1)
      | Interrupted slot rest => (place slot d p rest, Exits 1)
      end
  end.
Proof.
  intros H. unfold save_note_under.
  apply is_empty_false in H. rewrite H.
  destruct text as [|c text]; [discriminate H|]. reflexivity.
Qed.

(** [save_note] is [save_note_under] when the write is taken and the new
    file is listed last. *)
Lemma save_note_taken (d : directory) (now : datetime) (text : str) :
  save_note_under (Written (List.length d)) d now text
  = (fst (save_note d now text),
     match snd (save_note d now text) with
     | Ret r => Returns r
     | Raise e => Raises e
     end).
Proof.
  destruct (strip text) as [|c r] eqn:Hs.
  - rewrite save_note_under_blank, save_note_blank by exact Hs. reflexivity.
  - assert (Hne : strip text <> []) by congruence.
    rewrite save_note_under_nonblank, save_note_nonblank by exact Hne.
    destruct (_free_filename d (_now_ts now)) as [p|e] eqn:Hp; [|reflexivity].
    apply free_filename_fresh in Hp. destruct Hp as [_ Hfresh].
    rewrite write_text_fresh, place_last by exact Hfresh. reflexivity.
Qed.

(** **** C1, as stated, fails when no name is left for the second *)

(** C1 (counterexample).  The text [note] is not blank, yet in a directory
    where [2024-01-01_10-00-00.md] and its 999 versions exist, saving it at
    that second writes no file and returns no path: the error of
    [_free_filename] comes out. *)
Lemma save_note_crowded :
  let d := crowded (_now_ts new_year) in
  strip "note" <> []
  /\ save_note d new_year "note" = (d, Raise too_many)
  /\ forall p, snd (save_note d new_year "note") <> Ret (Some p).
Proof.
  cbv zeta.
  assert (Hne : strip "note" <> []) by (vm_compute; discriminate).
  assert (Hs : save_note (crowded (_now_ts new_year)) new_year "note"
               = (crowded (_now_ts new_year), Raise too_many)).
  { rewrite save_note_nonblank by exact Hne.
    rewrite free_filename_none; [reflexivity|]. apply crowded_taken. }
  split; [exact Hne | split; [exact Hs|]].
  intros p. rewrite Hs. discriminate.
Qed.

(** C1 (amended).  For a text that is not empty after trimming: when one of
    the names [base.md], [base_v1.md], ..., [base_v999.md] of the current
    second is unused and the write is taken, [save_note] creates a file
    under such a name, wherever the file system lists it, and returns its
    path; the file holds the trimmed text followed by one newline, reading it
    gives that text with every carriage return, alone or before a newline,
    turned into a newline, so the text itself when it holds no carriage
    return; the other files are as before.  When the names are all taken,
    the error "too many versions" comes out and the directory is unchanged.
    When the text cannot be encoded, the file is created and left empty, and
    [UnicodeEncodeError] comes out; when the operating system refuses the
    file, the program exits with status 1.  For a text that is empty or all
    white space, [save_note] writes no file and returns nothing. *)
Theorem save_note_content (os : write_outcome) (d : directory)
    (now : datetime) (text : str) :
  (strip text <> [] ->
   (exists c, In c (candidates (_now_ts now)) /\ path_exists d c = false) ->
   exists p,
     In p (candidates (_now_ts now)) /\ path_exists d p = false
     /\ (forall slot, os = Written slot ->
         snd (save_note_under os d now text) = Returns (Some p)
         /\ lookup (fst (save_note_under os d now text)) p
            = Some (Text (strip text ++ nl))
         /\ read_text (fst (save_note_under os d now text)) p
            = Ret (universal_newlines (strip text ++ nl))
         /\ (~ In CR text ->
             read_text (fst (save_note_under os d now text)) p
             = Ret (strip text ++ nl))
         /\ forall n, n <> p ->
              lookup (fst (save_note_under os d now text)) n = lookup d n)
     /\ (forall slot, os = EncodeFails slot ->
         snd (save_note_under os d now text) = Raises UnicodeEncodeError
         /\ lookup (fst (save_note_under os d now text)) p = Some (Text []))
     /\ (os = Refused -> save_note_under os d now text = (d, Exits 1)))
  /\ (strip text <> [] ->
      (forall c, In c (candidates (_now_ts now)) -> path_exists d c = true) ->
      save_note_under os d now text = (d, Raises too_many))
  /\ (blank text -> save_note_under os d now text = (d, Returns None))
  /\ save_note_under (Written (List.length d)) d now text
     = (fst (save_note d now text),
        match snd (save_note d now text) with
        | Ret r => Returns r
        | Raise e => Raises e
        end).
Proof.
  split; [|split; [|split]].
  - intros Hne (c & Hc & Hfree).
    destruct (free_filename_some d _ c Hc Hfree) as [p Hp].
    exists p. rewrite save_note_under_nonblank, Hp by exact Hne.
    apply free_filename_fresh in Hp. destruct Hp as [Hin Hfresh].
    split; [exact Hin|]. split; [exact Hfresh|].
    split; [|split].
    + intros slot ->. cbn [fst snd]. split; [reflexivity|].
      assert (Hl : lookup (place slot d p (strip text ++ nl)) p
                   = Some (Text (strip text ++ nl)))
        by (apply lookup_place_new; exact Hfresh).
      split; [exact Hl|].
      split; [unfold read_text; rewrite Hl; reflexivity|].
      split.
      * intros Hcr. unfold read_text. rewrite Hl, saved_text_plain by exact Hcr.
        reflexivity.
      * intros n Hn. apply lookup_place_other. exact Hn.
    + intros slot ->. cbn [fst snd]. split; [reflexivity|].
      apply lookup_place_new. exact Hfresh.
    + intros ->. reflexivity.
  - intros Hne Hall. rewrite save_note_under_nonblank by assumption.
    rewrite free_filename_none by assumption. reflexivity.
  - intros Hb. apply save_note_under_blank, strip_blank_iff. exact Hb.
  - apply save_note_taken.
Qed.

(** C1 (witness): a note saved into the empty directory, a note refused by
    a crowded one, and a blank text. *)
Lemma save_note_content_witness :
  (exists p,
     In p (candidates (_now_ts new_year)) /\ path_exists [] p = false
     /\ snd (save_note_under (Written 0) [] new_year "  hello ")
        = Returns (Some p)
     /\ read_text (fst (save_note_under (Written 0) [] new_year "  hello ")) p
        = Ret (strip "  hello " ++ nl))
  /\ save_note_under (Written 0) (crowded (_now_ts new_year)) new_year "note"
     = (crowded (_now_ts new_year), Raises too_many)
  /\ save_note_under (Written 0) [] new_year "   " = ([], Returns None).
Proof.
  split; [|split].
  - destruct (proj1 (save_note_content (Written 0) [] new_year "  hello "))
      as (p & Hin & Hfresh & Hw & _).
    + vm_compute; discriminate.
    + exists (_now_ts new_year ++ ".md").
      split; [left; reflexivity | reflexivity].
    + destruct (Hw 0%nat eq_refl) as (Hret & _ & _ & Hread & _).
      exists p. split; [exact Hin|]. split; [exact Hfresh|].
      split; [exact Hret|]. apply Hread.
      vm_compute. intuition discriminate.
  - apply (proj1 (proj2 (save_note_content (Written 0) _ new_year "note"))).
    + vm_compute; discriminate.
    + apply crowded_taken.
  - apply (proj1 (proj2 (proj2 (save_note_content (Written 0) [] new_year
                                  "   ")))).
    repeat constructor.
Defined.

(** ** Timestamp codec *)

Ltac div_lia := Z.div_mod_to_equations; lia.

Lemma code_digit (k : Z) : 0 <= k <= 9 -> code (digit k) = Z.to_N (48 + k).
Proof. intros H. unfold code, digit. apply N_ascii_embedding. lia. Qed.

Lemma is_digit_digit (k : Z) : 0 <= k <= 9 -> is_digit (digit k) = true.
Proof.
  intros H. unfold is_digit, between. rewrite code_digit by assumption.
  apply andb_true_iff; split; apply N.leb_le; lia.
Qed.

Lemma digit_val_digit (k : Z) : 0 <= k <= 9 -> digit_val (digit k) = k.
Proof. intros H. unfold digit_val. rewrite code_digit by assumption. lia. Qed.

Lemma is_digit_range (c : ascii) : is_digit c = true -> 0 <= digit_val c <= 9.
Proof.
  unfold is_digit, between, digit_val. intros H.
  apply andb_true_iff in H. destruct H as [H1 H2].
  apply N.leb_le in H1, H2. lia.
Qed.

Lemma digit_of_val (c : ascii) : is_digit c = true -> digit (digit_val c) = c.
Proof.
  intros H. pose proof (is_digit_range c H) as Hr.
  unfold digit, digit_val in *.
  replace (Z.to_N (48 + (Z.of_N (code c) - 48))) with (code c) by lia.
  apply ascii_N_embedding.
Qed.

(** *** [re.match] *)

Lemma re_match_sound (pat : list pat_item) :
  forall s m, re_match pat s = Some m ->
              exists suffix, s = m ++ suffix /\ Forall2 matches pat m.
Proof.
  induction pat as [|p pat IH]; intros s m H; simpl in H.
  - inversion H; subst. exists s. split; [reflexivity | constructor].
  - destruct s as [|c s]; [discriminate|].
    destruct (item_matches p c) eqn:Hp; [|discriminate].
    destruct (re_match pat s) as [m'|] eqn:Hm; [|discriminate].
    inversion H; subst. destruct (IH s m' Hm) as (suffix & -> & HF).
    exists suffix. split; [reflexivity | constructor; assumption].
Qed.

Lemma re_match_complete (pat : list pat_item) (m suffix : str) :
  Forall2 matches pat m -> re_match pat (m ++ suffix) = Some m.
Proof.
  induction 1 as [|p c pat m Hp _ IH]; simpl; [reflexivity|].
  unfold matches in Hp. rewrite Hp, IH. reflexivity.
Qed.

Lemma re_match_length (pat : list pat_item) (s m : str) :
  re_match pat s = Some m -> List.length m = List.length pat.
Proof.
  intros H. destruct (re_match_sound pat s m H) as (_ & _ & HF).
  symmetry. eapply Forall2_length; eassumption.
Qed.

(** The pattern looks at the beginning of the name only: what follows the
    characters it consumes is irrelevant. *)
Lemma re_match_suffix (pat : list pat_item) (p suffix : str) :
  List.length p = List.length pat ->
  re_match pat (p ++ suffix) = re_match pat p.
Proof.
  revert p. induction pat as [|x pat IH]; intros p Hlen; [reflexivity|].
  destruct p as [|c p]; [discriminate|]. simpl.
  destruct (item_matches x c); [|reflexivity].
  rewrite IH by (simpl in Hlen; congruence). reflexivity.
Qed.

Lemma matches_digit (c : ascii) : matches PDigit c -> is_digit c = true.
Proof. exact (fun H => H). Qed.

Lemma matches_lit (c d : ascii) : matches (PLit d) c -> c = d.
Proof. unfold matches; simpl. apply Ascii.eqb_eq. Qed.

Lemma stamp_text_matches (y1 y2 y3 y4 m1 m2 d1 d2 h1 h2 n1 n2 s1 s2 : Z) :
  0 <= y1 <= 9 -> 0 <= y2 <= 9 -> 0 <= y3 <= 9 -> 0 <= y4 <= 9 ->
  0 <= m1 <= 9 -> 0 <= m2 <= 9 -> 0 <= d1 <= 9 -> 0 <= d2 <= 9 ->
  0 <= h1 <= 9 -> 0 <= h2 <= 9 -> 0 <= n1 <= 9 -> 0 <= n2 <= 9 ->
  0 <= s1 <= 9 -> 0 <= s2 <= 9 ->
  Forall2 matches _TS (stamp_text y1 y2 y3 y4 m1 m2 d1 d2 h1 h2 n1 n2 s1 s2).
Proof.
  intros. unfold _TS, stamp_text, digits. cbn [repeat app].
  repeat constructor; unfold matches; cbn [item_matches];
    first [apply is_digit_digit; assumption | reflexivity].
Qed.

(** A text matched by [_TS] is a [stamp_text]. *)
Lemma TS_shape (m : str) :
  Forall2 matches _TS m ->
  exists y1 y2 y3 y4 m1 m2 d1 d2 h1 h2 n1 n2 s1 s2,
    (0 <= y1 <= 9 /\ 0 <= y2 <= 9 /\ 0 <= y3 <= 9 /\ 0 <= y4 <= 9)
    /\ (0 <= m1 <= 9 /\ 0 <= m2 <= 9 /\ 0 <= d1 <= 9 /\ 0 <= d2 <= 9)
    /\ (0 <= h1 <= 9 /\ 0 <= h2 <= 9 /\ 0 <= n1 <= 9 /\ 0 <= n2 <= 9)
    /\ (0 <= s1 <= 9 /\ 0 <= s2 <= 9)
    /\ m = stamp_text y1 y2 y3 y4 m1 m2 d1 d2 h1 h2 n1 n2 s1 s2.
Proof.
  unfold _TS, digits. cbn [repeat app]. intros H.
  repeat match goal with
         | H : Forall2 _ (_ :: _) _ |- _ => inversion H; clear H; subst
         | H : Forall2 _ [] _ |- _ => inversion H; clear H; subst
         | H : matches (PLit _) _ |- _ => apply matches_lit in H; subst
         | H : matches PDigit _ |- _ => apply matches_digit in H
         end.
  repeat match goal with
         | H : is_digit ?c = true |- _ =>
             pose proof (is_digit_range c H);
             rewrite <- (digit_of_val c H); clear H;
             generalize dependent (digit_val c); intros
         end.
  do 14 eexists. unfold stamp_text.
  refine (conj _ (conj _ (conj _ (conj _ eq_refl)))); repeat split; lia.
Qed.

(** *** [strptime] and the padded text on the digits *)

Lemma in_range_iff (lo hi n : Z) : in_range lo hi n = true <-> lo <= n <= hi.
Proof. unfold in_range. rewrite andb_true_iff, !Z.leb_le. tauto. Qed.

Lemma valid_datetime_iff (t : datetime) :
  valid_datetime t = true <->
  1 <= year t <= 9999 /\ 1 <= month t <= 12
  /\ 1 <= day t <= days_in_month (year t) (month t)
  /\ 0 <= hour t <= 23 /\ 0 <= minute t <= 59 /\ 0 <= second t <= 59
  /\ 0 <= microsecond t <= 999999 /\ 0 <= fold t <= 1.
Proof.
  unfold valid_datetime. rewrite !andb_true_iff, !in_range_iff. tauto.
Qed.

Lemma days_in_month_bound (y m : Z) : 1 <= m <= 12 -> days_in_month y m <= 31.
Proof.
  intros H. unfold days_in_month.
  destruct ((m =? 2) && is_leap y); [lia|].
  assert (Hm : m = 1 \/ m = 2 \/ m = 3 \/ m = 4 \/ m = 5 \/ m = 6 \/ m = 7
               \/ m = 8 \/ m = 9 \/ m = 10 \/ m = 11 \/ m = 12) by lia.
  repeat (destruct Hm as [->|Hm]); try subst m; cbv - [Z.le]; lia.
Qed.

Section Digits.

Variables y1 y2 y3 y4 m1 m2 d1 d2 h1 h2 n1 n2 s1 s2 : Z.

Hypothesis Hy : 0 <= y1 <= 9 /\ 0 <= y2 <= 9 /\ 0 <= y3 <= 9 /\ 0 <= y4 <= 9.
Hypothesis Hm : 0 <= m1 <= 9 /\ 0 <= m2 <= 9 /\ 0 <= d1 <= 9 /\ 0 <= d2 <= 9.
Hypothesis Hh : 0 <= h1 <= 9 /\ 0 <= h2 <= 9 /\ 0 <= n1 <= 9 /\ 0 <= n2 <= 9.
Hypothesis Hs : 0 <= s1 <= 9 /\ 0 <= s2 <= 9.

Lemma stamp_text_TS (suffix : str) :
  re_match _TS ((stamp_text y1 y2 y3 y4 m1 m2 d1 d2 h1 h2 n1 n2 s1 s2) ++ suffix)
  = Some (stamp_text y1 y2 y3 y4 m1 m2 d1 d2 h1 h2 n1 n2 s1 s2).
Proof.
  apply re_match_complete, stamp_text_matches; tauto.
Qed.

Lemma strptime_stamp :
  strptime (stamp_text y1 y2 y3 y4 m1 m2 d1 d2 h1 h2 n1 n2 s1 s2) =
  if in_range 1 12 (two m1 m2) && in_range 1 31 (two d1 d2)
     && in_range 0 23 (two h1 h2) && in_range 0 59 (two n1 n2)
     && in_range 0 61 (two s1 s2)
     && valid_datetime (stamp_datetime y1 y2 y3 y4 m1 m2 d1 d2 h1 h2 n1 n2 s1 s2)
  then Some (stamp_datetime y1 y2 y3 y4 m1 m2 d1 d2 h1 h2 n1 n2 s1 s2)
  else None.
Proof.
  unfold strptime.
  rewrite <- (app_nil_r (stamp_text y1 y2 y3 y4 m1 m2 d1 d2 h1 h2 n1 n2 s1 s2)) at 1.
  rewrite stamp_text_TS. rewrite Nat.eqb_refl. cbn [negb].
  unfold field, stamp_text. cbn [firstn skipn int_of_digits].
  rewrite !is_digit_digit, !digit_val_digit by tauto.
  reflexivity.
Qed.

Lemma padded_stamp :
  padded (stamp_datetime y1 y2 y3 y4 m1 m2 d1 d2 h1 h2 n1 n2 s1 s2)
  = (stamp_text y1 y2 y3 y4 m1 m2 d1 d2 h1 h2 n1 n2 s1 s2).
Proof.
  unfold padded, stamp_datetime, stamp_text, pad4, pad2.
  cbn [year month day hour minute second app list_ascii_of_string].
  unfold two, four.
  repeat (f_equal; try div_lia).
Qed.

End Digits.

(** The digits of the padded text. *)
Lemma padded_digits (t : datetime) :
  padded t =
  stamp_text (year t / 1000) (year t / 100 mod 10) (year t / 10 mod 10)
             (year t mod 10) (month t / 10) (month t mod 10)
             (day t / 10) (day t mod 10) (hour t / 10) (hour t mod 10)
             (minute t / 10) (minute t mod 10)
             (second t / 10) (second t mod 10).
Proof. reflexivity. Qed.

Lemma strptime_padded (t : datetime) :
  valid_datetime t = true -> microsecond t = 0 -> fold t = 0 ->
  strptime (padded t) = Some t.
Proof.
  intros Hv Hus Hfo. pose proof Hv as Hv'. apply valid_datetime_iff in Hv'.
  destruct Hv' as (Hy & Hm & Hd & Hh & Hn & Hs & _).
  pose proof (days_in_month_bound (year t) (month t) Hm) as Hd31.
  rewrite padded_digits, strptime_stamp by (repeat split; div_lia).
  assert (Ht : stamp_datetime
                 (year t / 1000) (year t / 100 mod 10)
                 (year t / 10 mod 10) (year t mod 10)
                 (month t / 10) (month t mod 10)
                 (day t / 10) (day t mod 10)
                 (hour t / 10) (hour t mod 10)
                 (minute t / 10) (minute t mod 10)
                 (second t / 10) (second t mod 10) = t).
  { destruct t as [Y M D h m s us fo]; cbn in *. subst us fo.
    unfold stamp_datetime, two, four. f_equal; div_lia. }
  rewrite Ht, Hv.
  replace (two (month t / 10) (month t mod 10)) with (month t)
    by (unfold two; div_lia).
  replace (two (day t / 10) (day t mod 10)) with (day t)
    by (unfold two; div_lia).
  replace (two (hour t / 10) (hour t mod 10)) with (hour t)
    by (unfold two; div_lia).
  replace (two (minute t / 10) (minute t mod 10)) with (minute t)
    by (unfold two; div_lia).
  replace (two (second t / 10) (second t mod 10)) with (second t)
    by (unfold two; div_lia).
  assert (H1 : in_range 1 12 (month t) = true) by (apply in_range_iff; lia).
  assert (H2 : in_range 1 31 (day t) = true) by (apply in_range_iff; lia).
  assert (H3 : in_range 0 23 (hour t) = true) by (apply in_range_iff; lia).
  assert (H4 : in_range 0 59 (minute t) = true) by (apply in_range_iff; lia).
  assert (H5 : in_range 0 61 (second t) = true) by (apply in_range_iff; lia).
  rewrite H1, H2, H3, H4, H5. reflexivity.
Qed.

(** [strptime] accepts the padded texts of the dates and times, and only
    them; what it returns has no microseconds and a [fold] of 0. *)
Lemma strptime_some (m : str) (t : datetime) :
  strptime m = Some t ->
  valid_datetime t = true /\ microsecond t = 0 /\ fold t = 0
  /\ m = padded t.
Proof.
  intros H. assert (Hm : exists x, re_match _TS m = Some x).
  { unfold strptime in H. destruct (re_match _TS m); [eauto | discriminate]. }
  destruct Hm as (x & Hx).
  assert (Hlen : List.length m = List.length x).
  { unfold strptime in H. rewrite Hx in H.
    destruct (List.length m =? List.length x)%nat eqn:E; [|discriminate].
    apply Nat.eqb_eq; exact E. }
  destruct (re_match_sound _ _ _ Hx) as (suffix & Hs & HF).
  assert (suffix = []) as ->.
  { rewrite Hs, length_app in Hlen. destruct suffix; [reflexivity|].
    simpl in Hlen; lia. }
  rewrite app_nil_r in Hs. subst x.
  destruct (TS_shape m HF) as
    (y1 & y2 & y3 & y4 & m1 & m2 & d1 & d2 & h1 & h2 & n1 & n2 & s1 & s2
     & Hy & Hmd & Hh & Hsec & ->).
  rewrite strptime_stamp in H by assumption.
  match type of H with
  | (if ?c && valid_datetime ?p then _ else _) = _ =>
      destruct c; [|discriminate];
      destruct (valid_datetime p) eqn:Hv; [|discriminate]
  end.
  cbn [andb] in H. inversion H; subst t. split; [exact Hv|].
  split; [reflexivity|]. split; [reflexivity|].
  symmetry. apply padded_stamp; assumption.
Qed.

Lemma padded_TS (t : datetime) (suffix : str) :
  valid_datetime t = true ->
  re_match _TS (padded t ++ suffix) = Some (padded t).
Proof.
  intros Hv. apply valid_datetime_iff in Hv.
  destruct Hv as (Hy & Hm & Hd & Hh & Hn & Hs & _).
  pose proof (days_in_month_bound (year t) (month t) Hm) as Hd31.
  rewrite padded_digits. apply stamp_text_TS; repeat split; div_lia.
Qed.

Section CodecLaws.

Variable mktime : Z -> Z -> option Z.

Lemma parse_ts_padded (t : datetime) (suffix : str) :
  valid_datetime t = true -> microsecond t = 0 -> fold t = 0 ->
  _parse_ts mktime (padded t ++ suffix) = timestamp mktime t.
Proof.
  intros Hv Hus Hfo. unfold _parse_ts.
  rewrite padded_TS, strptime_padded by assumption. reflexivity.
Qed.

(** [_parse_ts] succeeds on the names that begin with the padded text of a
    date and time of which [timestamp] does not fail, and returns that
    timestamp, for the first passage of the clock time. *)
Lemma parse_ts_spec (name : str) (z : Z) :
  _parse_ts mktime name = Some z <->
  exists t suffix,
    valid_datetime t = true /\ microsecond t = 0 /\ fold t = 0
    /\ name = padded t ++ suffix /\ timestamp mktime t = Some z.
Proof.
  split.
  - unfold _parse_ts. intros H.
    destruct (re_match _TS name) as [m|] eqn:Hm; [|discriminate].
    destruct (strptime m) as [t|] eqn:Ht; [|discriminate].
    destruct (re_match_sound _ _ _ Hm) as (suffix & -> & _).
    destruct (strptime_some m t Ht) as (Hv & Hus & Hfo & ->).
    exists t, suffix. auto.
  - intros (t & suffix & Hv & Hus & Hfo & -> & Hz).
    rewrite parse_ts_padded by assumption. exact Hz.
Qed.

(** From the year 1000 on the text of [strftime] is the padded one. *)
Lemma year_text_pad4 (y : Z) : 1000 <= y <= 9999 -> year_text y = pad4 y.
Proof.
  intros H.
  assert (Hall : forallb (fun k => str_eqb (year_text (1000 + Z.of_nat k))
                                           (pad4 (1000 + Z.of_nat k)))
                         (seq 0 (Z.to_nat 9000)) = true)
    by (vm_compute; reflexivity).
  rewrite forallb_forall in Hall.
  specialize (Hall (Z.to_nat (y - 1000))).
  replace (1000 + Z.of_nat (Z.to_nat (y - 1000))) with y in Hall by lia.
  apply str_eqb_eq, Hall, in_seq. lia.
Qed.

Lemma strftime_padded (t : datetime) :
  valid_datetime t = true -> 1000 <= year t -> strftime t = padded t.
Proof.
  intros Hv Hy. apply valid_datetime_iff in Hv.
  unfold strftime, padded. rewrite year_text_pad4 by lia. reflexivity.
Qed.

Lemma parse_ts_strftime (t : datetime) (suffix : str) :
  valid_datetime t = true -> microsecond t = 0 -> fold t = 0 ->
  1000 <= year t ->
  _parse_ts mktime (strftime t ++ suffix) = timestamp mktime t.
Proof.
  intros Hv Hus Hfo Hy. rewrite strftime_padded by assumption.
  apply parse_ts_padded; assumption.
Qed.

Lemma parse_ts_no_match (name : str) :
  re_match _TS name = None -> _parse_ts mktime name = None.
Proof. unfold _parse_ts. intros ->. reflexivity. Qed.

Lemma parse_ts_suffix (p suffix : str) :
  List.length p = 19%nat ->
  _parse_ts mktime (p ++ suffix) = _parse_ts mktime p.
Proof.
  intros Hlen. unfold _parse_ts. rewrite re_match_suffix; [reflexivity|].
  rewrite Hlen. reflexivity.
Qed.

End CodecLaws.

(** **** C3, as stated, fails before the year 1000 and in a repeated hour *)

(** C3 (counterexample).  On 31 December 999 at 23:59:59, an instant of the
    UTC clock, [_now_ts] writes the year with three digits, the pattern does
    not match and [_parse_ts] returns nothing.  In a zone whose clocks go
    back from 03:00 to 02:00 on 27 October 2024, the second passage of
    02:30:00 is the POSIX time 1729992600, and parsing its formatted text
    gives 1729989000, the first passage, one hour earlier. *)
Lemma parse_format_not_back :
  (valid_datetime year_999 = true /\ microsecond year_999 = 0
   /\ timestamp utc year_999 = Some (-30610224001)
   /\ _now_ts year_999 = ("999-12-31_23-59-59" : str)
   /\ _parse_ts utc (_now_ts year_999) = None)
  /\ (valid_datetime second_passage = true /\ microsecond second_passage = 0
      /\ timestamp set_back second_passage = Some 1729992600
      /\ _parse_ts set_back (_now_ts second_passage) = Some 1729989000).
Proof.
  split; [split; [|split; [|split; [|split]]] | split; [|split; [|split]]];
    vm_compute; reflexivity.
Qed.

(** C3 (amended).  For a date and time [t] without microseconds, from the
    year 1000 on and not the second passage of a repeated clock time
    ([fold] 0): the text written by [_now_ts] has the pattern
    [YYYY-MM-DD_HH-MM-SS], parsing it gives [t] back, and [_parse_ts] of that
    text, alone or followed by the rest of a file name, is what
    [t.timestamp()] is: the POSIX timestamp of [t], or nothing when the
    conversion fails. *)
Theorem parse_format_roundtrip (mktime : Z -> Z -> option Z) (t : datetime)
    (suffix : str) :
  valid_datetime t = true -> microsecond t = 0 -> fold t = 0 ->
  1000 <= year t ->
  re_match _TS (_now_ts t) = Some (_now_ts t)
  /\ strptime (_now_ts t) = Some t
  /\ _parse_ts mktime (_now_ts t) = timestamp mktime t
  /\ _parse_ts mktime (_now_ts t ++ suffix) = timestamp mktime t.
Proof.
  intros Hv Hus Hfo Hy. unfold _now_ts.
  rewrite strftime_padded by assumption. split.
  { rewrite <- (app_nil_r (padded t)) at 1. apply padded_TS; assumption. }
  split; [apply strptime_padded; assumption|].
  split; [|apply parse_ts_padded; assumption].
  rewrite <- (app_nil_r (padded t)). apply parse_ts_padded; assumption.
Qed.

(** C3 (witness): 1 January 2024, 10:00:00, read on a UTC clock. *)
Lemma parse_format_roundtrip_witness :
  re_match _TS (_now_ts new_year) = Some (_now_ts new_year)
  /\ strptime (_now_ts new_year) = Some new_year
  /\ _parse_ts utc (_now_ts new_year) = timestamp utc new_year
  /\ _parse_ts utc (_now_ts new_year ++ "_v2.md") = timestamp utc new_year.
Proof.
  apply (parse_format_roundtrip utc new_year "_v2.md");
    [reflexivity | reflexivity | reflexivity | vm_compute; discriminate].
Defined.

(** C6.  [_parse_ts] returns a timestamp exactly for the names that begin
    with the padded text of a valid date and time of which the conversion to
    a timestamp does not fail, whatever follows that text.  It returns
    [None] when the pattern does not match at the start of the name and when
    the matched text is no valid date and time (month 13); a name of which
    the first character is not a digit is rejected even if a timestamp
    follows; and what comes after the 19 characters of the pattern does not
    change the result. *)
Theorem parse_ts_leading (mktime : Z -> Z -> option Z) (name : str) :
  (forall z,
      _parse_ts mktime name = Some z <->
      exists t suffix,
        valid_datetime t = true /\ microsecond t = 0 /\ fold t = 0
        /\ name = padded t ++ suffix /\ timestamp mktime t = Some z)
  /\ (re_match _TS name = None -> _parse_ts mktime name = None)
  /\ (forall m, re_match _TS name = Some m ->
                (forall t, valid_datetime t = true -> m <> padded t) ->
                _parse_ts mktime name = None)
  /\ (forall suffix, List.length name = 19%nat ->
                     _parse_ts mktime (name ++ suffix) = _parse_ts mktime name)
  /\ (forall c, is_digit c = false -> _parse_ts mktime (c :: name) = None)
  /\ _parse_ts mktime "2024-13-01_10-00-00.md" = None.
Proof.
  split; [intros z; apply parse_ts_spec|].
  split; [apply parse_ts_no_match|].
  split; [|split; [intros; apply parse_ts_suffix; assumption|split]].
  - intros m Hm Hbad. destruct (_parse_ts mktime name) as [z|] eqn:Hz; auto.
    apply parse_ts_spec in Hz.
    destruct Hz as (t & suffix & Hv & _ & _ & Hn & _).
    exfalso. apply (Hbad t Hv). subst name.
    rewrite padded_TS in Hm by assumption. congruence.
  - intros c Hc. apply parse_ts_no_match.
    unfold _TS, digits. cbn [repeat app re_match item_matches].
    rewrite Hc. reflexivity.
  - reflexivity.
Qed.

(** C6 (witness): a name that does not begin with the pattern, a month 13,
    two suffixes after one timestamp, and a timestamp that is not leading. *)
Lemma parse_ts_leading_witness :
  _parse_ts utc "notes.md" = None
  /\ _parse_ts utc "2024-13-01_10-00-00.md" = None
  /\ _parse_ts utc ("2024-01-01_10-00-00" ++ "_v7.md")
     = _parse_ts utc "2024-01-01_10-00-00"
  /\ _parse_ts utc ("n"%char :: "2024-01-01_10-00-00.md") = None.
Proof.
  split; [|split; [|split]].
  - apply (proj1 (proj2 (parse_ts_leading utc "notes.md"))). reflexivity.
  - apply (proj1 (proj2 (proj2 (parse_ts_leading utc "2024-13-01_10-00-00.md")))
             "2024-13-01_10-00-00").
    + reflexivity.
    + intros t Hv Heq. apply valid_datetime_iff in Hv.
      destruct Hv as (_ & Hm & _).
      assert (H : nth 5 (padded t) "x"%char = "1"%char
                  /\ nth 6 (padded t) "x"%char = "3"%char)
        by (rewrite <- Heq; split; reflexivity).
      destruct H as [H5 H6]. rewrite padded_digits in H5, H6.
      cbn [nth stamp_text] in H5, H6.
      apply (f_equal digit_val) in H5, H6.
      rewrite digit_val_digit in H5, H6 by div_lia.
      change (digit_val "1") with 1 in H5. change (digit_val "3") with 3 in H6.
      div_lia.
  - apply (proj1 (proj2 (proj2 (proj2 (parse_ts_leading utc "2024-01-01_10-00-00"))))).
    reflexivity.
  - apply (proj1 (proj2 (proj2 (proj2 (proj2
             (parse_ts_leading utc "2024-01-01_10-00-00.md")))))).
    reflexivity.
Defined.

(** ** Substrings *)

Lemma startswith_iff (s p : str) :
  startswith s p = true <-> exists post, s = p ++ post.
Proof.
  revert s; induction p as [|x p IH]; intros s; simpl.
  - split; [intros _; exists s; reflexivity | destruct s; reflexivity].
  - destruct s as [|y s]; simpl.
    + split; [discriminate | intros (post & H); discriminate].
    + rewrite andb_true_iff, Ascii.eqb_eq, IH. split.
      * intros (-> & post & ->). exists post; reflexivity.
      * intros (post & H). inversion H; subst. split; eauto.
Qed.

Lemma str_in_iff (p s : str) :
  str_in p s = true <-> exists pre post, s = pre ++ p ++ post.
Proof.
  induction s as [|c s IH]; cbn [str_in]; rewrite orb_true_iff, startswith_iff.
  - split.
    + intros [(post & H)|H]; [|discriminate]. exists [], post; exact H.
    + intros (pre & post & H). left.
      destruct pre; [exists post; exact H | discriminate].
  - rewrite IH. split.
    + intros [(post & H)|(pre & post & H)].
      * exists [], post; exact H.
      * exists (c :: pre), post. rewrite H; reflexivity.
    + intros (pre & post & H). destruct pre as [|x pre].
      * left. exists post; exact H.
      * right. inversion H; subst. exists pre, post; reflexivity.
Qed.

(** The test of line 126 is the search of [q] in [c] regardless of case. *)
Lemma str_in_lower (q c : str) :
  str_in (lower q) (lower c) = true <-> contains_ci q c.
Proof.
  rewrite str_in_iff. unfold contains_ci, lower. split.
  - intros (pre & post & H).
    apply map_eq_app in H. destruct H as (pre' & rest & -> & Hpre & H).
    apply map_eq_app in H. destruct H as (m & post' & -> & Hm & Hpost).
    exists pre', m, post'. split; [reflexivity | exact Hm].
  - intros (pre & m & post & -> & Hm).
    exists (map lower_char pre), (map lower_char post).
    rewrite !map_app, Hm. reflexivity.
Qed.

(** ** Timestamps of a list of files *)

Lemma with_some_In {A B : Type} (l : list (A * option B)) (a : A) (b : B) :
  In (a, b) (with_some l) <-> In (a, Some b) l.
Proof.
  induction l as [|[x [y|]] l IH]; simpl; [tauto| |].
  - rewrite IH. split; (intros [H|H]; [left; congruence | right; exact H]).
  - rewrite IH. split; [auto | intros [H|H]; [discriminate | exact H]].
Qed.

Section SearchLaws.

Variable mktime : Z -> Z -> option Z.

Lemma stamped_In (files : list str) (f : str) (z : Z) :
  In (f, z) (stamped mktime files) <->
  In f files /\ _parse_ts mktime f = Some z.
Proof.
  unfold stamped. rewrite with_some_In, in_map_iff. split.
  - intros (g & Hg & Hin). inversion Hg; subst. auto.
  - intros [Hin Hz]. exists f. rewrite Hz. auto.
Qed.

Lemma stamped_names (files : list str) :
  map fst (stamped mktime files) = filter (parsable mktime) files.
Proof.
  unfold stamped, parsable. induction files as [|f files IH]; [reflexivity|].
  cbn [map with_some filter].
  destruct (_parse_ts mktime f); cbn [map fst]; rewrite IH; reflexivity.
Qed.

Lemma parsable_iff (f : str) :
  parsable mktime f = true <-> exists z, _parse_ts mktime f = Some z.
Proof.
  unfold parsable. destruct (_parse_ts mktime f) as [z|].
  - split; eauto.
  - split; [discriminate | intros (z & H); discriminate].
Qed.

End SearchLaws.

(** ** Sorting by decreasing key *)

Lemma insert_desc_perm {A : Type} (x : A * Z) (l : list (A * Z)) :
  Permutation (insert_desc x l) (x :: l).
Proof.
  induction l as [|y l IH]; simpl; [reflexivity|].
  destruct (snd x <? snd y); [|reflexivity].
  rewrite IH. apply perm_swap.
Qed.

Lemma sorted_desc_perm {A : Type} (l : list (A * Z)) :
  Permutation (sorted_desc l) l.
Proof.
  induction l as [|x l IH]; simpl; [reflexivity|].
  rewrite insert_desc_perm. constructor. exact IH.
Qed.

Lemma insert_desc_sorted {A : Type} (x : A * Z) (l : list (A * Z)) :
  StronglySorted key_desc l -> StronglySorted key_desc (insert_desc x l).
Proof.
  induction 1 as [|y l Hs IH Hy]; simpl.
  - repeat constructor.
  - destruct (snd x <? snd y) eqn:E.
    + apply Z.ltb_lt in E. constructor; [exact IH|].
      apply (Permutation_Forall (x := x :: l)).
      * symmetry. apply insert_desc_perm.
      * constructor; [unfold key_desc; lia | exact Hy].
    + apply Z.ltb_ge in E. constructor; [constructor; assumption|].
      constructor; [exact E|].
      eapply Forall_impl; [|exact Hy]. unfold key_desc. intros a Ha. lia.
Qed.

Lemma sorted_desc_sorted {A : Type} (l : list (A * Z)) :
  StronglySorted key_desc (sorted_desc l).
Proof.
  induction l as [|x l IH]; simpl; [constructor|].
  apply insert_desc_sorted; exact IH.
Qed.

(** ** The greatest key *)

Lemma max_by_key_spec {A : Type} (l : list (A * Z)) :
  forall best,
    In (max_by_key best l) (best :: l)
    /\ forall x, In x (best :: l) -> snd x <= snd (max_by_key best l).
Proof.
  induction l as [|y l IH]; intros best; simpl.
  - split; [left; reflexivity|]. intros x [->|[]]. lia.
  - destruct (IH (if snd best <? snd y then y else best)) as [Hin Hmax].
    split.
    + destruct Hin as [Hin|Hin]; [|right; right; exact Hin].
      rewrite <- Hin. destruct (snd best <? snd y); [right; left|left]; reflexivity.
    + intros x Hx.
      assert (Hb : snd best <= snd (max_by_key (if snd best <? snd y then y else best) l)
                   /\ snd y <= snd (max_by_key (if snd best <? snd y then y else best) l)).
      { pose proof (Hmax _ (or_introl eq_refl)) as H0.
        destruct (snd best <? snd y) eqn:E.
        - apply Z.ltb_lt in E. lia.
        - apply Z.ltb_ge in E. lia. }
      destruct Hx as [->|[->|Hx]]; [tauto | tauto |].
      apply Hmax. right; exact Hx.
Qed.

(** ** Search *)

Lemma filter_filter {A : Type} (f g : A -> bool) (l : list A) :
  filter f (filter g l) = filter (fun x => g x && f x) l.
Proof.
  induction l as [|x l IH]; simpl; [reflexivity|].
  destruct (g x); simpl; [destruct (f x)|]; rewrite IH; reflexivity.
Qed.

Lemma glob_md_In (d : directory) (f : str) :
  In f (glob_md d) <-> In f (map fst d) /\ endswith f ".md" = true.
Proof. unfold glob_md. rewrite filter_In. tauto. Qed.

Lemma holds_query_iff (d : directory) (q f : str) :
  holds_query d q f = true <->
  exists c, read_text d f = Ret c /\ contains_ci q c.
Proof.
  unfold holds_query. destruct (read_text d f) as [c|e].
  - rewrite str_in_lower. split; [eauto|].
    intros (c' & Hc & H). inversion Hc; subst; exact H.
  - split; [discriminate | intros (c & Hc & _); discriminate].
Qed.

Section SearchClaims.

Variable mktime : Z -> Z -> option Z.

Lemma scan_matching (d : directory) (q : str) (files : list str) :
  fst (scan d (lower q) files) = filter (holds_query d q) files.
Proof.
  induction files as [|f files IH]; [reflexivity|].
  cbn [scan filter]. unfold holds_query at 1.
  destruct (scan d (lower q) files) as [matching log]. cbn [fst] in IH.
  destruct (read_text d f) as [c|e]; [|exact IH].
  destruct (str_in (lower q) (lower c)); cbn [fst]; rewrite IH; reflexivity.
Qed.

Lemma search_notes_blank (d : directory) (q : str) :
  blank q -> search_notes mktime d q = ([], []).
Proof.
  intros H. apply strip_blank_iff in H. unfold search_notes.
  rewrite H. reflexivity.
Qed.

Lemma search_notes_found (d : directory) (q : str) :
  ~ blank q ->
  fst (search_notes mktime d q)
  = map fst (sorted_desc
               (stamped mktime (filter (holds_query d q) (glob_md d)))).
Proof.
  intros H. rewrite <- strip_blank_iff in H. apply is_empty_false in H.
  unfold search_notes. rewrite H. cbv zeta.
  rewrite <- scan_matching.
  destruct (scan d (lower q) (glob_md d)) as [matching log]. reflexivity.
Qed.

Lemma sorted_names (l : list (str * Z)) :
  StronglySorted key_desc l ->
  (forall f z, In (f, z) l -> _parse_ts mktime f = Some z) ->
  StronglySorted (not_older mktime) (map fst l).
Proof.
  induction 1 as [|[f z] l Hs IH Hf]; intros Hstamp; simpl; constructor.
  - apply IH. intros g y Hg. apply Hstamp. right; exact Hg.
  - apply Forall_map. apply Forall_forall. intros [g y] Hg.
    pose proof (proj1 (Forall_forall _ _) Hf _ Hg) as Hk.
    unfold key_desc in Hk. cbn [fst snd] in *.
    intros zf zg Hzf Hzg.
    rewrite (Hstamp f z (or_introl eq_refl)) in Hzf.
    rewrite (Hstamp g y (or_intror Hg)) in Hzg.
    inversion Hzf; inversion Hzg; subst. exact Hk.
Qed.

Lemma search_notes_perm (d : directory) (q : str) :
  ~ blank q ->
  Permutation (fst (search_notes mktime d q))
              (filter (search_hit mktime d q) (glob_md d)).
Proof.
  intros H. rewrite search_notes_found by assumption.
  rewrite sorted_desc_perm, stamped_names, filter_filter. reflexivity.
Qed.

Lemma search_notes_sorted (d : directory) (q : str) :
  ~ blank q -> StronglySorted (not_older mktime) (fst (search_notes mktime d q)).
Proof.
  intros H. rewrite search_notes_found by assumption.
  apply sorted_names; [apply sorted_desc_sorted|].
  intros f z Hin.
  apply (Permutation_in _ (sorted_desc_perm _)) in Hin.
  apply stamped_In in Hin. tauto.
Qed.

Lemma search_hit_iff (d : directory) (q f : str) :
  search_hit mktime d q f = true <->
  (exists z, _parse_ts mktime f = Some z)
  /\ exists c, read_text d f = Ret c /\ contains_ci q c.
Proof.
  unfold search_hit. rewrite andb_true_iff, holds_query_iff, parsable_iff.
  tauto.
Qed.

Lemma newest_note_none (d : directory) :
  (forall f, In f (glob_md d) -> _parse_ts mktime f = None) ->
  newest_note mktime d = None.
Proof.
  intros H. unfold newest_note. cbv zeta.
  destruct (stamped mktime (glob_md d)) as [|[f z] l] eqn:E; [reflexivity|].
  assert (Hin : In (f, z) (stamped mktime (glob_md d)))
    by (rewrite E; left; reflexivity).
  apply stamped_In in Hin. destruct Hin as [Hin Hz].
  rewrite (H f Hin) in Hz. discriminate.
Qed.

Lemma newest_note_max (d : directory) (f : str) (z : Z) :
  In f (glob_md d) -> _parse_ts mktime f = Some z ->
  exists g zg,
    newest_note mktime d = Some g /\ In g (glob_md d)
    /\ _parse_ts mktime g = Some zg
    /\ forall h zh, In h (glob_md d) -> _parse_ts mktime h = Some zh ->
                    zh <= zg.
Proof.
  intros Hf Hz. unfold newest_note. cbv zeta.
  assert (Hin : In (f, z) (stamped mktime (glob_md d)))
    by (apply stamped_In; auto).
  destruct (stamped mktime (glob_md d)) as [|v valid] eqn:E; [destruct Hin|].
  destruct (max_by_key_spec valid v) as [Hbest Hmax].
  rewrite <- E in Hbest. destruct (max_by_key v valid) as [g zg].
  apply stamped_In in Hbest. destruct Hbest as [Hg Hzg].
  exists g, zg. cbn [fst]. repeat split; auto.
  intros h zh Hh Hzh.
  assert (Hh' : In (h, zh) (v :: valid))
    by (rewrite <- E; apply stamped_In; auto).
  exact (Hmax _ Hh').
Qed.

End SearchClaims.

(** **** C4, as stated, fails for a file that is not a [.md] file *)

(** C4 (counterexample).  [2024-01-01_10-00-00.txt] has a leading timestamp
    that parses and its content holds the query, yet the search does not
    return it: only the names that end in [.md] are listed. *)
Lemma search_notes_other_extension :
  (exists z, _parse_ts utc text_file = Some z)
  /\ read_text stray text_file = Ret ("alpha" : str)
  /\ contains_ci "alpha" "alpha"
  /\ ~ In text_file (fst (search_notes utc stray "alpha")).
Proof.
  split; [eexists; vm_compute; reflexivity|].
  split; [reflexivity|]. split.
  - exists [], ("alpha" : str), []. split; reflexivity.
  - vm_compute. tauto.
Qed.

(** C4 (amended).  For a query that is not blank, [search_notes] returns
    exactly the files of the directory whose name ends in [.md] and begins
    with a timestamp that parses, and whose content can be read and holds the
    query as a substring, case apart; they come most recent first.  A file
    whose name has no such timestamp is left out whatever its content.  For
    a blank query the result is empty and neither the directory nor a file is
    accessed. *)
Theorem search_notes_result (mktime : Z -> Z -> option Z) (d : directory)
    (q : str) :
  (blank q -> search_notes mktime d q = ([], []))
  /\ (~ blank q ->
      Permutation (fst (search_notes mktime d q))
                  (filter (search_hit mktime d q) (glob_md d))
      /\ StronglySorted (not_older mktime) (fst (search_notes mktime d q))
      /\ forall f,
          In f (fst (search_notes mktime d q)) <->
          In f (map fst d) /\ endswith f ".md" = true
          /\ (exists z, _parse_ts mktime f = Some z)
          /\ exists c, read_text d f = Ret c /\ contains_ci q c).
Proof.
  split; [apply search_notes_blank|]. intros H.
  split; [apply search_notes_perm; exact H|].
  split; [apply search_notes_sorted; exact H|].
  intros f. split.
  - intros Hin.
    apply (Permutation_in _ (search_notes_perm mktime d q H)) in Hin.
    apply filter_In in Hin. destruct Hin as [Hg Hh].
    apply glob_md_In in Hg. apply search_hit_iff in Hh. tauto.
  - intros (Hd & Hmd & Hz & Hc).
    apply (Permutation_in _ (Permutation_sym (search_notes_perm mktime d q H))).
    apply filter_In. split; [apply glob_md_In; auto|].
    apply search_hit_iff. auto.
Qed.

Lemma not_blank_alpha : ~ blank "alpha".
Proof. intros H. inversion H as [|c l Hc _]. discriminate Hc. Qed.

(** C4 (witness): a blank query, and the query [alpha] over two notes. *)
Lemma search_notes_result_witness :
  search_notes utc two_notes "  " = ([], [])
  /\ Permutation (fst (search_notes utc two_notes "alpha"))
                 (filter (search_hit utc two_notes "alpha") (glob_md two_notes))
  /\ StronglySorted (not_older utc) (fst (search_notes utc two_notes "alpha")).
Proof.
  split.
  - apply (proj1 (search_notes_result utc two_notes "  ")).
    repeat constructor.
  - pose proof (proj2 (search_notes_result utc two_notes "alpha")
                      not_blank_alpha) as (Hp & Hs & _).
    split; assumption.
Defined.

(** **** C5, as stated, fails for a file that is not a [.md] file *)

(** C5 (counterexample).  The directory holds a file whose name has a
    timestamp that parses, yet [newest_note] returns nothing. *)
Lemma newest_note_other_extension :
  In text_file (map fst stray)
  /\ (exists z, _parse_ts utc text_file = Some z)
  /\ newest_note utc stray = None.
Proof.
  split; [left; reflexivity|].
  split; [eexists; vm_compute; reflexivity | reflexivity].
Qed.

(** C5 (amended).  [newest_note] returns nothing when the directory is
    empty or holds no file whose name ends in [.md] and begins with a
    timestamp that parses; otherwise it returns such a file, whose timestamp
    is the greatest among those files. *)
Theorem newest_note_latest (mktime : Z -> Z -> option Z) (d : directory) :
  newest_note mktime [] = None
  /\ ((forall f, In f (map fst d) -> endswith f ".md" = true ->
                 _parse_ts mktime f = None) ->
      newest_note mktime d = None)
  /\ (forall f z,
         In f (map fst d) -> endswith f ".md" = true ->
         _parse_ts mktime f = Some z ->
         exists g zg,
           newest_note mktime d = Some g
           /\ In g (map fst d) /\ endswith g ".md" = true
           /\ _parse_ts mktime g = Some zg
           /\ forall h zh, In h (map fst d) -> endswith h ".md" = true ->
                           _parse_ts mktime h = Some zh -> zh <= zg).
Proof.
  split; [reflexivity|]. split.
  - intros H. apply newest_note_none. intros f Hf.
    apply glob_md_In in Hf. apply H; tauto.
  - intros f z Hd Hmd Hz.
    destruct (newest_note_max mktime d f z) as (g & zg & Hn & Hg & Hzg & Hmax);
      [apply glob_md_In; auto | exact Hz |].
    apply glob_md_In in Hg. exists g, zg.
    split; [exact Hn|]. split; [tauto|]. split; [tauto|]. split; [exact Hzg|].
    intros h zh Hh Hhmd Hzh. apply (Hmax h zh); [apply glob_md_In; auto | exact Hzh].
Qed.

(** C5 (witness): no note among stray files, and the later of two notes. *)
Lemma newest_note_latest_witness :
  newest_note utc stray = None
  /\ exists g zg,
      newest_note utc two_notes = Some g
      /\ In g (map fst two_notes) /\ endswith g ".md" = true
      /\ _parse_ts utc g = Some zg
      /\ forall h zh, In h (map fst two_notes) -> endswith h ".md" = true ->
                      _parse_ts utc h = Some zh -> zh <= zg.
Proof.
  split.
  - apply (proj1 (proj2 (newest_note_latest utc stray))).
    intros f [<-|[]] H. vm_compute in H. discriminate H.
  - apply (proj2 (proj2 (newest_note_latest utc two_notes))
             "2024-01-01_10-00-00.md" 1704103200).
    + left; reflexivity.
    + reflexivity.
    + reflexivity.
Defined.

(** ** Joining lines *)

Lemma join_cons (sep x y : str) (l : list str) :
  join sep (x :: y :: l) = x ++ sep ++ join sep (y :: l).
Proof. reflexivity. Qed.

Lemma blank_nl : blank nl.
Proof. repeat constructor. Qed.






(** ** Saving the lines of a note *)

Lemma save_lines_eq (d : directory) (now : datetime) (lines : list str)
    (next : control) :
  save_lines d now lines next =
  match save_note d now (join nl lines) with
  | (d', Ret _) => (d', next)
  | (d', Raise e) => (d', Crashed e)
  end.
Proof. destruct lines; reflexivity. Qed.

Lemma save_lines_strip (d : directory) (now : datetime) (l1 l2 : list str)
    (next : control) :
  strip (join nl l1) = strip (join nl l2) ->
  save_lines d now l1 next = save_lines d now l2 next.
Proof.
  intros H. rewrite !save_lines_eq.
  rewrite (save_note_strip d now _ _ H). reflexivity.
Qed.

Lemma save_note_returns (d d' : directory) (now : datetime) (text p : str) :
  save_note d now text = (d', Ret (Some p)) ->
  strip text <> [] /\ path_exists d p = false
  /\ d' = d ++ [(p, Text (strip text ++ nl))].
Proof.
  intros H. destruct (strip text) as [|c r] eqn:Hs.
  - rewrite save_note_blank in H by assumption. discriminate.
  - assert (Hne : strip text <> []) by congruence.
    rewrite save_note_nonblank in H by assumption.
    destruct (_free_filename d (_now_ts now)) as [q|e] eqn:Hq; [|discriminate].
    inversion H; subst q.
    apply free_filename_fresh in Hq. destruct Hq as [_ Hfresh].
    rewrite write_text_fresh by assumption.
    rewrite <- Hs. split; [rewrite Hs; discriminate | auto].
Qed.

Lemma save_note_under_returns (os : write_outcome) (d d' : directory)
    (now : datetime) (text p : str) :
  save_note_under os d now text = (d', Returns (Some p)) ->
  strip text <> [] /\ path_exists d p = false
  /\ In p (candidates (_now_ts now))
  /\ exists slot, os = Written slot
                  /\ d' = place slot d p (strip text ++ nl).
Proof.
  intros H. destruct (strip text) as [|c r] eqn:Hs.
  - rewrite save_note_under_blank in H by assumption. discriminate.
  - assert (Hne : strip text <> []) by congruence.
    rewrite save_note_under_nonblank in H by assumption.
    destruct (_free_filename d (_now_ts now)) as [q|e] eqn:Hq; [|discriminate].
    apply free_filename_fresh in Hq. destruct Hq as [Hin Hfresh].
    destruct os as [slot|slot| |slot rest]; try discriminate.
    inversion H; subst q. rewrite <- Hs.
    split; [rewrite Hs; discriminate|]. split; [exact Hfresh|].
    split; [exact Hin|]. exists slot. auto.
Qed.





(** ** Capture loop *)

Section Capture.

Variable HAS_TERMIOS : bool.

Lemma capture_line (lines : list str) (line : str)
    (inputs : list input_result) (prompts : list console) :
  strip line <> [] ->
  capture HAS_TERMIOS lines (Line line :: inputs) prompts
  = capture HAS_TERMIOS (lines ++ [line]) inputs prompts.
Proof.
  intros H. apply is_empty_false in H. cbn [capture]. rewrite H. reflexivity.
Qed.

Lemma capture_confirm (lines : list str) (line : str)
    (inputs : list input_result) (prompts : list console) :
  strip line = [] ->
  prompt_blank_line_action HAS_TERMIOS (hd at_eof prompts)
  = Ret ("enter" : str) ->
  capture HAS_TERMIOS lines (Line line :: inputs) prompts = Confirmed lines.
Proof.
  intros Hs Hp. cbn [capture]. rewrite Hs, Hp. reflexivity.
Qed.

Lemma capture_continue (lines : list str) (line : str)
    (inputs : list input_result) (prompts : list console) :
  strip line = [] ->
  prompt_blank_line_action HAS_TERMIOS (hd at_eof prompts)
  = Ret ("ctrlx" : str) ->
  capture HAS_TERMIOS lines (Line line :: inputs) prompts
  = capture HAS_TERMIOS (lines ++ [[]]) inputs (tl prompts).
Proof.
  intros Hs Hp. cbn [capture]. rewrite Hs, Hp. reflexivity.
Qed.

Lemma capture_end_of_input (lines : list str) (prompts : list console) :
  capture HAS_TERMIOS lines [] prompts = Abandoned lines.
Proof. reflexivity. Qed.


End Capture.

Lemma strip_first : strip "first" <> [].
Proof. vm_compute. discriminate. Qed.

Lemma strip_second : strip "second" <> [].
Proof. vm_compute. discriminate. Qed.

(** C7.  In the capture loop, when the line read is blank and the prompt
    answers "enter", the collection ends and the blank line is not added;
    when it answers "ctrlx", one empty line is added and the collection goes
    on.  So [first], a blank line answered by "ctrlx", [second] and a blank
    line answered by "enter" make the three lines [first], empty, [second],
    and the file written holds [first], two newlines, [second] and a newline;
    it is the same when [first] was the line typed at the dashboard. *)
Theorem capture_blank_line (HAS_TERMIOS : bool) (d : directory)
    (now : datetime) (lines : list str) (line : str)
    (inputs : list input_result) (prompts : list console) (p1 p2 : console) :
  (strip line = [] ->
   prompt_blank_line_action HAS_TERMIOS (hd at_eof prompts)
   = Ret ("enter" : str) ->
   capture HAS_TERMIOS lines (Line line :: inputs) prompts = Confirmed lines)
  /\ (strip line = [] ->
      prompt_blank_line_action HAS_TERMIOS (hd at_eof prompts)
      = Ret ("ctrlx" : str) ->
      capture HAS_TERMIOS lines (Line line :: inputs) prompts
      = capture HAS_TERMIOS (lines ++ [[]]) inputs (tl prompts))
  /\ (prompt_blank_line_action HAS_TERMIOS p1 = Ret ("ctrlx" : str) ->
      prompt_blank_line_action HAS_TERMIOS p2 = Ret ("enter" : str) ->
      capture HAS_TERMIOS []
              [Line "first"; Line []; Line "second"; Line []] (p1 :: p2 :: prompts)
      = Confirmed first_second
      /\ capture HAS_TERMIOS (seed "first")
                 [Line []; Line "second"; Line []] (p1 :: p2 :: prompts)
         = Confirmed first_second
      /\ strip (join nl first_second) ++ nl = first_second_text
      /\ forall p,
          _free_filename d (_now_ts now) = Ret p ->
          tui_note HAS_TERMIOS d now []
                   [Line "first"; Line []; Line "second"; Line []]
                   (p1 :: p2 :: prompts)
          = (d ++ [(p, Text first_second_text)], Continue)
          /\ tui_note HAS_TERMIOS d now "first"
                      [Line []; Line "second"; Line []] (p1 :: p2 :: prompts)
             = (d ++ [(p, Text first_second_text)], Continue)).
Proof.
  split; [apply capture_confirm|]. split; [apply capture_continue|].
  intros H1 H2.
  assert (Hloop : capture HAS_TERMIOS [("first" : str)]
                          [Line []; Line "second"; Line []] (p1 :: p2 :: prompts)
                  = Confirmed first_second).
  { rewrite capture_continue by (reflexivity || exact H1).
    rewrite capture_line by exact strip_second.
    rewrite capture_confirm by (reflexivity || exact H2). reflexivity. }
  assert (Hall : capture HAS_TERMIOS []
                         [Line "first"; Line []; Line "second"; Line []]
                         (p1 :: p2 :: prompts)
                 = Confirmed first_second).
  { rewrite capture_line by exact strip_first. exact Hloop. }
  split; [exact Hall|]. split; [exact Hloop|]. split; [reflexivity|].
  intros p Hp.
  assert (Hsave : save_lines d now first_second Continue
                  = (d ++ [(p, Text first_second_text)], Continue)).
  { unfold save_lines, first_second.
    assert (Hne : strip (join nl first_second) <> [])
      by (vm_compute; discriminate).
    destruct (save_note_written d now (join nl first_second) p Hne Hp)
      as (_ & Hs & _).
    unfold first_second in Hs. rewrite Hs. reflexivity. }
  split; unfold tui_note; cbv zeta.
  - cbn [is_empty]. rewrite Hall. exact Hsave.
  - change (if is_empty "first" then [] else [("first" : str)])
      with [("first" : str)].
    rewrite Hloop. exact Hsave.
Qed.

(** C7 (witness): the scenario on a raw terminal (Ctrl+X, then Enter) and
    on a console without raw mode (the line [x], then an empty line). *)
Lemma capture_blank_line_witness :
  tui_note true [] new_year []
           [Line "first"; Line []; Line "second"; Line []]
           [key CTRL_X; key ENTER_KEY]
  = ([(_now_ts new_year ++ ".md", Text first_second_text)], Continue)
  /\ tui_note false [] new_year []
              [Line "first"; Line []; Line "second"; Line []]
              [typed "x"; typed []]
     = ([(_now_ts new_year ++ ".md", Text first_second_text)], Continue).
Proof.
  split.
  - apply (proj2 (proj2 (capture_blank_line true [] new_year [] [] [] []
                           (key CTRL_X) (key ENTER_KEY)))).
    + reflexivity.
    + reflexivity.
    + reflexivity.
  - apply (proj2 (proj2 (capture_blank_line false [] new_year [] [] [] []
                           (typed "x") (typed [])))).
    + reflexivity.
    + reflexivity.
    + reflexivity.
Defined.

(** **** C8, as stated, fails when the lines gathered are all empty *)




(** ** Blank-line prompt *)

Lemma on_terminal_error_outcomes (r : result str) :
  (forall s, r = Ret s -> s = ("enter" : str) \/ s = ("ctrlx" : str)) ->
  forall s, on_terminal_error r = Ret s ->
            s = ("enter" : str) \/ s = ("ctrlx" : str).
Proof.
  intros H s. destruct r as [x|[]]; simpl; intros E;
    try discriminate; try (apply H; exact E); inversion E; auto.
Qed.

(** When the prompt returns, it returns "enter" or "ctrlx". *)
Lemma prompt_two_outcomes (HAS_TERMIOS : bool) (c : console) (s : str) :
  prompt_blank_line_action HAS_TERMIOS c = Ret s ->
  s = ("enter" : str) \/ s = ("ctrlx" : str).
Proof.
  unfold prompt_blank_line_action. destruct HAS_TERMIOS; cbn [negb].
  - destruct (tcgetattr c); [|discriminate].
    destruct (tcsetattr c); [|discriminate].
    apply on_terminal_error_outcomes. intros x.
    destruct (setraw c); [|discriminate].
    destruct (read1 c) as [ch|]; [|discriminate].
    destruct (str_eqb ch CTRL_X); intros E; inversion E; auto.
  - destruct (answer c) as [l| |].
    + destruct (str_eqb (lower (strip l)) "x"); intros E; inversion E; auto.
    + intros E; inversion E; auto.
    + intros E; inversion E; auto.
Qed.

(** Without raw mode, the end of the input and an interrupt while
    answering give "enter". *)
Lemma prompt_fallback_failure (c : console) :
  answer c = Eof \/ answer c = Interrupt ->
  prompt_blank_line_action false c = Ret ("enter" : str).
Proof.
  unfold prompt_blank_line_action. cbn [negb]. intros [-> | ->]; reflexivity.
Qed.

(** In raw mode, an error of [tty.setraw] or of [sys.stdin.read] gives
    "enter", provided the attributes of the terminal could be read
    beforehand and can be restored afterwards. *)
Lemma prompt_raw_failure (c : console) (e : exn) :
  e = OSError \/ e = TermiosError ->
  tcgetattr c = Ret tt -> tcsetattr c = Ret tt ->
  setraw c = Raise e \/ (setraw c = Ret tt /\ read1 c = Raise e) ->
  prompt_blank_line_action true c = Ret ("enter" : str).
Proof.
  intros He Hg Hs Hfail. unfold prompt_blank_line_action. cbn [negb].
  rewrite Hg, Hs. destruct Hfail as [-> | [-> ->]];
    destruct He as [-> | ->]; reflexivity.
Qed.

(** C10 (the code at the failing input).  When standard input is not a
    terminal, [termios.tcgetattr] (line 179, before the [try]) raises: the
    prompt returns neither "enter" nor "ctrlx", the error leaves the capture
    loop, and the line typed so far is not saved. *)
Theorem prompt_tcgetattr_failure :
  prompt_blank_line_action true not_a_tty = Raise TermiosError
  /\ capture true [("draft" : str)] [Line []] [not_a_tty] = Failed TermiosError
  /\ tui_note true [] new_year "draft" [Line []] [not_a_tty]
     = ([], Crashed TermiosError).
Proof.
  split; [reflexivity|]. split; reflexivity.
Qed.


(** * Further properties *)

(** ** Files are kept *)




(** ** The name of a saved note *)

Lemma startswith_app (a b : str) : startswith (a ++ b) a = true.
Proof. apply startswith_iff. exists b; reflexivity. Qed.

Lemma endswith_app (a b : str) : endswith (a ++ b) b = true.
Proof. unfold endswith. rewrite rev_app_distr. apply startswith_app. Qed.

Lemma padded_truncated (t : datetime) : padded (truncated t) = padded t.
Proof. reflexivity. Qed.

Lemma valid_truncated (t : datetime) :
  valid_datetime t = true -> valid_datetime (truncated t) = true.
Proof.
  rewrite !valid_datetime_iff. cbn [truncated year month day hour minute
                                    second microsecond fold]. lia.
Qed.

Lemma candidate_suffix (base c : str) :
  In c (candidates base) ->
  exists suffix, c = base ++ suffix /\ endswith c ".md" = true.
Proof.
  intros H. apply in_candidates in H. destruct H as [->|(j & _ & ->)].
  - exists ".md". split; [reflexivity | apply endswith_app].
  - unfold versioned. exists ("_v" ++ str_of_nat j ++ ".md").
    split; [reflexivity|].
    rewrite (app_assoc _ _ ".md"), (app_assoc _ _ ".md"). apply endswith_app.
Qed.

(** What [_parse_ts] reads from a name made by [_now_ts]: the timestamp of
    the date and the clock time of [now], taken as a first passage. *)
Lemma parse_ts_now (mktime : Z -> Z -> option Z) (now : datetime)
    (suffix : str) :
  valid_datetime now = true -> 1000 <= year now ->
  _parse_ts mktime (_now_ts now ++ suffix)
  = timestamp mktime (truncated now).
Proof.
  intros Hv Hy. unfold _now_ts. rewrite strftime_padded by assumption.
  rewrite <- padded_truncated.
  apply parse_ts_padded; [apply valid_truncated; exact Hv | |]; reflexivity.
Qed.

Lemma saved_name (mktime : Z -> Z -> option Z) (os : write_outcome)
    (d d' : directory) (now : datetime) (text p : str) :
  valid_datetime now = true -> 1000 <= year now ->
  save_note_under os d now text = (d', Returns (Some p)) ->
  path_exists d p = false
  /\ (exists slot, d' = place slot d p (strip text ++ nl))
  /\ In p (candidates (_now_ts now))
  /\ endswith p ".md" = true
  /\ _parse_ts mktime p = timestamp mktime (truncated now).
Proof.
  intros Hv Hy H. apply save_note_under_returns in H.
  destruct H as (_ & Hfresh & Hin & slot & _ & ->).
  destruct (candidate_suffix _ _ Hin) as (suffix & Hp & Hmd).
  split; [exact Hfresh|]. split; [exists slot; reflexivity|].
  split; [exact Hin|]. split; [exact Hmd|].
  rewrite Hp. apply parse_ts_now; assumption.
Qed.

(** X2.  From the year 1000 on, the path that [save_note] returns is one of
    the names that [_free_filename] tries for the formatted clock reading;
    it ends in [.md], and [_parse_ts] reads from it what [timestamp] gives
    for the date and the clock time of the reading to the second, taken as a
    first passage: its POSIX timestamp, or nothing when the conversion
    fails. *)
Theorem save_note_stamped (mktime : Z -> Z -> option Z) (os : write_outcome)
    (d d' : directory) (now : datetime) (text p : str) :
  valid_datetime now = true -> 1000 <= year now ->
  save_note_under os d now text = (d', Returns (Some p)) ->
  In p (candidates (strftime now))
  /\ endswith p ".md" = true
  /\ _parse_ts mktime p = timestamp mktime (truncated now).
Proof.
  intros Hv Hy H.
  destruct (saved_name mktime os d d' now text p Hv Hy H)
    as (_ & _ & Hin & Hmd & Hts).
  split; [exact Hin|]. split; [exact Hmd | exact Hts].
Qed.

(** X2 (witness): a note saved into the empty directory. *)
Lemma save_note_stamped_witness :
  In (_now_ts new_year ++ ".md") (candidates (strftime new_year))
  /\ endswith (_now_ts new_year ++ ".md") ".md" = true
  /\ _parse_ts utc (_now_ts new_year ++ ".md")
     = timestamp utc (truncated new_year).
Proof.
  apply (save_note_stamped utc (Written 0) []
           (place 0 [] (_now_ts new_year ++ ".md") (strip "hello" ++ nl))
           new_year "hello").
  - reflexivity.
  - vm_compute. discriminate.
  - vm_compute. reflexivity.
Defined.

(** ** A saved note is found again *)

Lemma glob_md_place (slot : nat) (d : directory) (p c f : str) :
  endswith p ".md" = true ->
  In f (glob_md (place slot d p c)) <-> f = p \/ In f (glob_md d).
Proof.
  intros Hmd. rewrite !glob_md_In, <- !path_exists_names, path_exists_place.
  rewrite orb_true_iff, str_eqb_eq. split.
  - intros [[->|H] Hf]; [left; reflexivity | right; auto].
  - intros [->|[H Hf]]; auto.
Qed.

Lemma newest_after_save (mktime : Z -> Z -> option Z) (os : write_outcome)
    (d d' : directory) (now : datetime) (text p : str) (z : Z) :
  valid_datetime now = true -> 1000 <= year now ->
  timestamp mktime (truncated now) = Some z ->
  all_older mktime d z ->
  save_note_under os d now text = (d', Returns (Some p)) ->
  newest_note mktime d' = Some p
  /\ read_text d' p = Ret (universal_newlines (strip text ++ nl)).
Proof.
  intros Hv Hy Hz Hold H.
  destruct (saved_name mktime os d d' now text p Hv Hy H)
    as (Hfresh & (slot & ->) & _ & Hmd & Hts).
  rewrite Hz in Hts. split.
  - assert (Hin : In p (glob_md (place slot d p (strip text ++ nl))))
      by (apply glob_md_place; auto).
    destruct (newest_note_max mktime _ p _ Hin Hts)
      as (g & zg & Hnew & Hg & Hzg & Hmax).
    rewrite Hnew. f_equal.
    apply glob_md_place in Hg; [|exact Hmd]. destruct Hg as [Hg|Hg].
    + exact Hg.
    + specialize (Hold g zg Hg Hzg). specialize (Hmax p _ Hin Hts). lia.
  - unfold read_text. rewrite lookup_place_new by exact Hfresh. reflexivity.
Qed.

(** X3.  From the year 1000 on: when the timestamp that [_parse_ts] reads
    from the name of a note just saved (that of the clock reading to the
    second, taken as a first passage) is greater than the timestamps of all
    the notes that were there, [newest_note] returns the note just saved,
    wherever the file system lists it. *)
Theorem save_then_newest (mktime : Z -> Z -> option Z) (os : write_outcome)
    (d d' : directory) (now : datetime) (text p : str) (z : Z) :
  valid_datetime now = true -> 1000 <= year now ->
  timestamp mktime (truncated now) = Some z ->
  all_older mktime d z ->
  save_note_under os d now text = (d', Returns (Some p)) ->
  newest_note mktime d' = Some p.
Proof.
  intros Hv Hy Hz Hold H.
  apply (newest_after_save mktime os d d' now text p z Hv Hy Hz Hold H).
Qed.

Lemma two_notes_older : all_older utc two_notes 1704110400.
Proof.
  intros f y Hf Hy. vm_compute in Hf.
  destruct Hf as [<-|[<-|[]]]; vm_compute in Hy; inversion Hy; reflexivity.
Defined.

Lemma save_at_noon (slot : nat) (text : str) :
  strip text <> [] ->
  save_note_under (Written slot) two_notes noon text
  = (place slot two_notes (_now_ts noon ++ ".md") (strip text ++ nl),
     Returns (Some (_now_ts noon ++ ".md"))).
Proof.
  intros H. rewrite save_note_under_nonblank by exact H. reflexivity.
Defined.

(** X3 (witness): a third note, saved at noon after the two of the morning
    and listed first by the file system. *)
Lemma save_then_newest_witness :
  newest_note utc
    (place 0 two_notes (_now_ts noon ++ ".md") (strip "third" ++ nl))
  = Some (_now_ts noon ++ ".md").
Proof.
  apply (save_then_newest utc (Written 0) two_notes _ noon "third" _
           1704110400).
  - reflexivity.
  - vm_compute. discriminate.
  - reflexivity.
  - exact two_notes_older.
  - apply save_at_noon. discriminate.
Defined.

(** X4.  From the year 1000 on, and when [timestamp] accepts the clock
    reading: a note just saved is found by every search whose query is not
    blank and occurs, case apart, in the text of the file as it is read
    back, which is the stripped text and one newline with every carriage
    return read as a newline. *)
Theorem save_then_search (mktime : Z -> Z -> option Z) (os : write_outcome)
    (d d' : directory) (now : datetime) (text q p : str) (z : Z) :
  valid_datetime now = true -> 1000 <= year now ->
  timestamp mktime (truncated now) = Some z ->
  ~ blank q ->
  contains_ci q (universal_newlines (strip text ++ nl)) ->
  save_note_under os d now text = (d', Returns (Some p)) ->
  In p (fst (search_notes mktime d' q)).
Proof.
  intros Hv Hy Hz Hq Hc H.
  destruct (saved_name mktime os d d' now text p Hv Hy H)
    as (Hfresh & (slot & ->) & _ & Hmd & Hts).
  rewrite Hz in Hts.
  apply (Permutation_in _ (Permutation_sym (search_notes_perm mktime _ q Hq))).
  apply filter_In. split.
  - apply glob_md_place; auto.
  - apply search_hit_iff. split; [eexists; exact Hts|].
    exists (universal_newlines (strip text ++ nl)). split; [|exact Hc].
    unfold read_text. rewrite lookup_place_new by exact Hfresh. reflexivity.
Qed.

(** X4 (witness): the note "Third thing" is found by the query "THIRD". *)
Lemma save_then_search_witness :
  In (_now_ts noon ++ ".md")
     (fst (search_notes utc
             (place 1 two_notes (_now_ts noon ++ ".md")
                    (strip " Third thing " ++ nl))
             "THIRD")).
Proof.
  apply (save_then_search utc (Written 1) two_notes _ noon " Third thing "
           "THIRD" _ 1704110400).
  - reflexivity.
  - vm_compute. discriminate.
  - reflexivity.
  - intros Hb. inversion Hb. discriminate.
  - exists [], ("Third" : str), (" thing" ++ nl). split; reflexivity.
  - apply save_at_noon. discriminate.
Defined.

(** ** One name per second *)

(** X5.  From the year 1000 on, two valid readings of the clock get the
    same base name from [_now_ts] exactly when they show the same date and
    the same clock time to the second: the microseconds and the passage
    ([fold]) of a repeated clock time do not enter the name. *)
Theorem now_ts_same_second (t1 t2 : datetime) :
  valid_datetime t1 = true -> valid_datetime t2 = true ->
  1000 <= year t1 -> 1000 <= year t2 ->
  (_now_ts t1 = _now_ts t2 <-> truncated t1 = truncated t2).
Proof.
  intros H1 H2 Hy1 Hy2. unfold _now_ts.
  rewrite !strftime_padded by assumption. split; intros H.
  - assert (E : strptime (padded (truncated t1))
                = strptime (padded (truncated t2))).
    { rewrite !padded_truncated, H. reflexivity. }
    rewrite !strptime_padded in E
      by (try apply valid_truncated; auto).
    congruence.
  - rewrite <- (padded_truncated t1), <- (padded_truncated t2), H.
    reflexivity.
Qed.

(** X5 (witness): two readings a quarter of a second apart. *)
Lemma now_ts_same_second_witness :
  _now_ts new_year = _now_ts new_year_later
  <-> truncated new_year = truncated new_year_later.
Proof.
  apply now_ts_same_second;
    [reflexivity | reflexivity | vm_compute; discriminate
     | vm_compute; discriminate].
Defined.

(** ** The last note *)

Lemma rstrip_idem (s : str) : rstrip (rstrip s) = rstrip s.
Proof.
  unfold rstrip. rewrite rev_involutive, lstrip_idem. reflexivity.
Qed.

Lemma rstrip_saved (text : str) : rstrip (strip text ++ nl) = strip text.
Proof.
  rewrite rstrip_blank by apply blank_nl. unfold strip. apply rstrip_idem.
Qed.

(** X6.  Under the conditions of X3 and for a text that holds no carriage
    return, [show_last_note] shows the note just saved, and its content
    without the newline that [save_note] added: the text given,
    stripped. *)
Theorem show_last_after_save (mktime : Z -> Z -> option Z)
    (os : write_outcome) (d d' : directory) (now : datetime) (text p : str)
    (z : Z) :
  valid_datetime now = true -> 1000 <= year now ->
  timestamp mktime (truncated now) = Some z ->
  all_older mktime d z ->
  ~ In CR text ->
  save_note_under os d now text = (d', Returns (Some p)) ->
  show_last_note mktime d' = LastShown p (strip text).
Proof.
  intros Hv Hy Hz Hold Hcr H.
  destruct (newest_after_save mktime os d d' now text p z Hv Hy Hz Hold H)
    as [Hn Hr].
  unfold show_last_note.
  rewrite Hn, Hr, saved_text_plain, rstrip_saved by exact Hcr. reflexivity.
Qed.

(** X6 (witness) *)
Lemma show_last_after_save_witness :
  show_last_note utc
    (place 2 two_notes (_now_ts noon ++ ".md") (strip " third " ++ nl))
  = LastShown (_now_ts noon ++ ".md") (strip " third ").
Proof.
  apply (show_last_after_save utc (Written 2) two_notes _ noon " third " _
           1704110400).
  - reflexivity.
  - vm_compute. discriminate.
  - reflexivity.
  - exact two_notes_older.
  - vm_compute. intuition discriminate.
  - apply save_at_noon. discriminate.
Defined.

(** X7.  [copy_last] changes the clipboard only when it reports a copy, and
    the clipboard then holds the whole content of the note that
    [newest_note] returns; without the clipboard module, without a note, or
    when reading or copying fails, the clipboard is as before. *)
Theorem copy_last_clipboard (mktime : Z -> Z -> option Z) (HAS_CLIPBOARD copy_ok : bool)
    (d : directory) (clip : str) :
  (exists note content,
      copy_last mktime HAS_CLIPBOARD copy_ok d clip = (content, Copied note)
      /\ HAS_CLIPBOARD = true /\ copy_ok = true
      /\ newest_note mktime d = Some note
      /\ read_text d note = Ret content)
  \/ (fst (copy_last mktime HAS_CLIPBOARD copy_ok d clip) = clip
      /\ (snd (copy_last mktime HAS_CLIPBOARD copy_ok d clip) = NoClipboard
          \/ snd (copy_last mktime HAS_CLIPBOARD copy_ok d clip) = NothingToCopy
          \/ snd (copy_last mktime HAS_CLIPBOARD copy_ok d clip) = CopyError)).
Proof.
  unfold copy_last. destruct HAS_CLIPBOARD; cbn [negb].
  - destruct (newest_note mktime d) as [note|] eqn:Hn.
    + destruct (read_text d note) as [content|e] eqn:Hr.
      * destruct copy_ok.
        -- left. exists note, content. auto.
        -- right. cbn [fst snd]. auto.
      * right. cbn [fst snd]. auto.
    + right. cbn [fst snd]. auto.
  - right. cbn [fst snd]. auto.
Qed.

(** X8.  Under the conditions of X3, [copy_last] puts on the clipboard the
    text of the note just saved as it is read back: the stripped text and
    one newline, with every carriage return read as a newline; this when the
    clipboard module is there and the copy succeeds. *)
Theorem copy_last_after_save (mktime : Z -> Z -> option Z)
    (os : write_outcome) (d d' : directory) (now : datetime)
    (text p clip : str) (z : Z) :
  valid_datetime now = true -> 1000 <= year now ->
  timestamp mktime (truncated now) = Some z ->
  all_older mktime d z ->
  save_note_under os d now text = (d', Returns (Some p)) ->
  copy_last mktime true true d' clip
  = (universal_newlines (strip text ++ nl), Copied p).
Proof.
  intros Hv Hy Hz Hold H.
  destruct (newest_after_save mktime os d d' now text p z Hv Hy Hz Hold H)
    as [Hn Hr].
  unfold copy_last. cbn [negb]. rewrite Hn, Hr. reflexivity.
Qed.

(** X8 (witness) *)
Lemma copy_last_after_save_witness :
  copy_last utc true true
    (place 0 two_notes (_now_ts noon ++ ".md") (strip " third " ++ nl))
    "old"
  = (universal_newlines (strip " third " ++ nl),
     Copied (_now_ts noon ++ ".md")).
Proof.
  apply (copy_last_after_save utc (Written 0) two_notes _ noon " third " _
           _ 1704110400).
  - reflexivity.
  - vm_compute. discriminate.
  - reflexivity.
  - exact two_notes_older.
  - apply save_at_noon. discriminate.
Defined.

(** ** Listing order *)

Lemma stamped_filter (mktime : Z -> Z -> option Z) (P : str -> bool) (files : list str) :
  stamped mktime (filter P files)
  = filter (fun x => P (fst x)) (stamped mktime files).
Proof.
  unfold stamped. induction files as [|f files IH]; [reflexivity|].
  cbn [filter map]. destruct (P f) eqn:HP.
  - cbn [map with_some]. destruct (_parse_ts mktime f).
    + cbn [filter fst]. rewrite HP, IH. reflexivity.
    + exact IH.
  - cbn [with_some]. destruct (_parse_ts mktime f).
    + cbn [filter fst]. rewrite HP. exact IH.
    + exact IH.
Qed.

Lemma insert_desc_top {A : Type} (x : A * Z) (l : list (A * Z)) :
  Forall (fun y => snd y <= snd x) l -> insert_desc x l = x :: l.
Proof.
  intros H. destruct l as [|y l]; [reflexivity|].
  inversion H; subst. cbn [insert_desc].
  destruct (Z.ltb_spec (snd x) (snd y)); [lia | reflexivity].
Qed.

Lemma Forall_filter {A : Type} (P : A -> Prop) (f : A -> bool) (l : list A) :
  Forall P l -> Forall P (filter f l).
Proof.
  intros H. apply Forall_forall. intros x Hx. apply filter_In in Hx.
  rewrite Forall_forall in H. apply H. tauto.
Qed.

Lemma filter_insert_desc {A : Type} (P : A * Z -> bool) (x : A * Z)
    (l : list (A * Z)) :
  StronglySorted key_desc l ->
  filter P (insert_desc x l)
  = if P x then insert_desc x (filter P l) else filter P l.
Proof.
  induction l as [|y l IH]; intros Hs.
  - cbn [insert_desc filter]. destruct (P x); reflexivity.
  - inversion Hs as [|y' l' Hl Hy]; subst. cbn [insert_desc].
    destruct (Z.ltb_spec (snd x) (snd y)) as [Hlt|Hge].
    + cbn [filter]. rewrite (IH Hl). destruct (P y), (P x); try reflexivity.
      cbn [insert_desc]. destruct (Z.ltb_spec (snd x) (snd y)); [reflexivity|lia].
    + change (filter P (x :: y :: l))
        with (if P x then x :: filter P (y :: l) else filter P (y :: l)).
      destruct (P x); [|reflexivity].
      symmetry. apply insert_desc_top. apply Forall_filter.
      constructor; [exact Hge|].
      eapply Forall_impl; [|exact Hy]. intros z Hz. unfold key_desc in Hz. lia.
Qed.

Lemma filter_sorted_desc {A : Type} (P : A * Z -> bool) (l : list (A * Z)) :
  filter P (sorted_desc l) = sorted_desc (filter P l).
Proof.
  induction l as [|x l IH]; [reflexivity|].
  change (sorted_desc (x :: l)) with (insert_desc x (sorted_desc l)).
  rewrite filter_insert_desc by apply sorted_desc_sorted.
  cbn [filter]. destruct (P x); rewrite IH; reflexivity.
Qed.

Lemma map_fst_filter {A B : Type} (P : A -> bool) (l : list (A * B)) :
  map fst (filter (fun x => P (fst x)) l) = filter P (map fst l).
Proof.
  induction l as [|x l IH]; [reflexivity|].
  cbn [filter map]. destruct (P (fst x)); cbn [map]; rewrite IH; reflexivity.
Qed.

(** X9.  A search with a query that is not blank returns the notes of the
    listing of [list_notes] that hold the query, in the order of that
    listing: sorting after filtering, as [search_notes] does, and filtering
    the sorted list give the same result. *)
Theorem search_notes_listing_order (mktime : Z -> Z -> option Z) (d : directory)
    (q : str) :
  ~ blank q ->
  fst (search_notes mktime d q)
  = filter (holds_query d q) (sorted_files mktime d).
Proof.
  intros Hq. rewrite search_notes_found by exact Hq. unfold sorted_files.
  rewrite stamped_filter, <- filter_sorted_desc. apply map_fst_filter.
Qed.

(** X9 (witness) *)
Lemma search_notes_listing_order_witness :
  fst (search_notes utc two_notes "a")
  = filter (holds_query two_notes "a") (sorted_files utc two_notes).
Proof.
  apply search_notes_listing_order. intros Hb. inversion Hb. discriminate.
Defined.

Lemma max_by_key_pick {A : Type} (l : list (A * Z)) :
  forall v x,
    max_by_key (if snd v <? snd x then x else v) l
    = if snd v <? snd (max_by_key x l) then max_by_key x l else v.
Proof.
  induction l as [|y l IH]; intros v x; [reflexivity|].
  cbn [max_by_key].
  destruct (Z.ltb_spec (snd v) (snd x)) as [Hvx|Hvx].
  - pose proof (proj2 (max_by_key_spec l (if snd x <? snd y then y else x))
                  _ (or_introl eq_refl)) as Hm.
    assert (Hx : snd x <= snd (if snd x <? snd y then y else x)).
    { destruct (Z.ltb_spec (snd x) (snd y)); lia. }
    destruct (Z.ltb_spec (snd v)
                (snd (max_by_key (if snd x <? snd y then y else x) l)));
      [reflexivity | lia].
  - destruct (Z.ltb_spec (snd x) (snd y)) as [Hxy|Hxy].
    + apply IH.
    + destruct (Z.ltb_spec (snd v) (snd y)) as [Hvy|Hvy]; [lia|].
      rewrite <- (IH v x).
      destruct (Z.ltb_spec (snd v) (snd x)); [lia | reflexivity].
Qed.

Lemma sorted_desc_head {A : Type} (l : list (A * Z)) :
  forall v, hd_error (sorted_desc (v :: l)) = Some (max_by_key v l).
Proof.
  induction l as [|x l IH]; intros v; [reflexivity|].
  change (sorted_desc (v :: x :: l))
    with (insert_desc v (sorted_desc (x :: l))).
  specialize (IH x).
  destruct (sorted_desc (x :: l)) as [|m rest]; [discriminate|].
  cbn [hd_error] in IH. injection IH as ->.
  cbn [insert_desc max_by_key]. rewrite max_by_key_pick.
  destruct (snd v <? snd (max_by_key x l)); reflexivity.
Qed.

(** X10.  The note [newest_note] returns is the first one of the listing
    of [list_notes], and there is none exactly when the listing is empty. *)
Theorem newest_note_first_listed (mktime : Z -> Z -> option Z) (d : directory) :
  newest_note mktime d = hd_error (sorted_files mktime d).
Proof.
  unfold newest_note, sorted_files.
  destruct (stamped mktime (glob_md d)) as [|v l]; [reflexivity|].
  pose proof (sorted_desc_head l v) as H.
  destruct (sorted_desc (v :: l)) as [|m rest]; [discriminate|].
  cbn [hd_error] in H. injection H as ->. reflexivity.
Qed.

(** ** What a listing shows *)

Lemma sorted_files_length (mktime : Z -> Z -> option Z) (d : directory) :
  List.length (sorted_files mktime d)
  = List.length (filter (parsable mktime) (glob_md d)).
Proof.
  unfold sorted_files. rewrite length_map.
  rewrite (Permutation_length (sorted_desc_perm _)).
  rewrite <- stamped_names, length_map. reflexivity.
Qed.

Lemma sorted_files_sorted (mktime : Z -> Z -> option Z) (d : directory) :
  StronglySorted (not_older mktime) (sorted_files mktime d).
Proof.
  unfold sorted_files. apply sorted_names.
  - apply sorted_desc_sorted.
  - intros f z H. apply (Permutation_in _ (sorted_desc_perm _)) in H.
    apply stamped_In in H. tauto.
Qed.

Lemma Forall_firstn {A : Type} (P : A -> Prop) (n : nat) (l : list A) :
  Forall P l -> Forall P (firstn n l).
Proof.
  revert n. induction l as [|x l IH]; intros n H.
  - destruct n; constructor.
  - destruct n; [constructor|]. inversion H; subst.
    cbn [firstn]. constructor; auto.
Qed.

Lemma StronglySorted_firstn {A : Type} (R : A -> A -> Prop) (n : nat)
    (l : list A) :
  StronglySorted R l -> StronglySorted R (firstn n l).
Proof.
  revert n. induction l as [|x l IH]; intros n H.
  - destruct n; constructor.
  - destruct n; [constructor|]. inversion H; subst.
    cbn [firstn]. constructor; [apply IH; assumption|].
    apply Forall_firstn. assumption.
Qed.

Lemma show_item_name (d : directory) (width keep : nat) (l : list str) :
  map item_name (map (show_item d width keep) l) = l.
Proof.
  rewrite map_map. rewrite <- (map_id l) at 2. apply map_ext.
  intros f. unfold show_item. destruct (read_text d f); reflexivity.
Qed.

(** X11.  [list_notes] reports "no notes" exactly when no [.md] file of the
    directory has a name that [_parse_ts] accepts.  Otherwise the total it
    prints is the number of such files, it shows the smaller of the limit
    and of this total, one line per note shown, and the notes shown are the
    first ones of the listing, each not older than those after it. *)
Theorem list_notes_overview (mktime : Z -> Z -> option Z) (d : directory) (limit : nat) :
  (list_notes mktime d limit = ListEmpty
   /\ filter (parsable mktime) (glob_md d) = [])
  \/ exists total items,
      list_notes mktime d limit = Listed total (Nat.min limit total) items
      /\ total = List.length (filter (parsable mktime) (glob_md d))
      /\ (0 < total)%nat
      /\ List.length items = Nat.min limit total
      /\ map item_name items = firstn limit (sorted_files mktime d)
      /\ StronglySorted (not_older mktime) (map item_name items).
Proof.
  unfold list_notes. pose proof (sorted_files_length mktime d) as Hlen.
  destruct (Nat.eqb_spec (List.length (sorted_files mktime d)) 0) as [H0|H0].
  - left. split; [reflexivity|]. apply length_zero_iff_nil. lia.
  - right. eexists _, _. split; [reflexivity|].
    split; [exact Hlen|]. split; [lia|].
    rewrite show_item_name, length_map, length_firstn.
    split; [reflexivity|]. split; [reflexivity|].
    apply StronglySorted_firstn, sorted_files_sorted.
Qed.

Lemma first_line_no_LF (s : str) : ~ In LF (first_line s).
Proof.
  induction s as [|c s IH]; [intros []|].
  cbn [first_line]. destruct (Ascii.eqb_spec c LF) as [->|Hc]; [intros []|].
  intros [H|H]; [congruence | exact (IH H)].
Qed.

Lemma first_line_prefix (s : str) :
  exists rest, s = first_line s ++ rest /\ (rest = [] \/ hd_error rest = Some LF).
Proof.
  induction s as [|c s (rest & IH & Hr)].
  - exists []. split; [reflexivity | left; reflexivity].
  - cbn [first_line]. destruct (Ascii.eqb_spec c LF) as [->|Hc].
    + exists (LF :: s). split; [reflexivity | right; reflexivity].
    + exists rest. split; [|exact Hr]. cbn [app]. f_equal. exact IH.
Qed.

Lemma In_firstn {A : Type} (x : A) (n : nat) (l : list A) :
  In x (firstn n l) -> In x l.
Proof.
  intros H. rewrite <- (firstn_skipn n l). apply in_or_app. left. exact H.
Qed.

Lemma shorten_length (width keep : nat) (s : str) :
  (keep + 3 <= width)%nat -> (List.length (shorten width keep s) <= width)%nat.
Proof.
  intros H. unfold shorten.
  destruct (Nat.ltb_spec width (List.length s)) as [Hl|Hl]; [|exact Hl].
  rewrite length_app, length_firstn. cbn [List.length list_ascii_of_string]. lia.
Qed.

Lemma shorten_no_LF (width keep : nat) (s : str) :
  ~ In LF s -> ~ In LF (shorten width keep s).
Proof.
  intros Hs. unfold shorten.
  destruct (width <? List.length s)%nat; [|exact Hs].
  intros H. apply in_app_or in H. destruct H as [H|H].
  - apply Hs. apply (In_firstn _ _ _ H).
  - cbn in H. unfold LF in H. intuition discriminate.
Qed.

Lemma shorten_cases (width keep : nat) (s : str) :
  ((List.length s <= width)%nat -> shorten width keep s = s)
  /\ ((width < List.length s)%nat ->
      shorten width keep s = firstn keep s ++ "...").
Proof.
  unfold shorten.
  destruct (Nat.ltb_spec width (List.length s)); split; intros;
    try reflexivity; lia.
Qed.

Lemma show_item_preview (d : directory) (width keep : nat)
    (note name preview : str) :
  show_item d width keep note = Preview name preview ->
  name = note
  /\ exists content,
      read_text d note = Ret content
      /\ preview = shorten width keep (first_line content).
Proof.
  unfold show_item. destruct (read_text d note) as [content|e]; [|discriminate].
  intros H. injection H as <- <-. split; [reflexivity|].
  exists content. split; reflexivity.
Qed.

(** X12.  Every preview that [list_notes] shows fits in 60 characters and
    holds no newline: it is the first line of the note when that line has at
    most 60 characters, and otherwise its first 57 characters followed by
    three dots. *)
Theorem list_notes_previews (mktime : Z -> Z -> option Z) (d : directory) (limit : nat)
    (total shown : nat) (items : list item) (name preview : str) :
  list_notes mktime d limit = Listed total shown items ->
  In (Preview name preview) items ->
  (List.length preview <= 60)%nat
  /\ ~ In LF preview
  /\ exists content,
      read_text d name = Ret content
      /\ ((List.length (first_line content) <= 60)%nat ->
          preview = first_line content)
      /\ ((60 < List.length (first_line content))%nat ->
          preview = firstn 57 (first_line content) ++ "...").
Proof.
  unfold list_notes.
  destruct (List.length (sorted_files mktime d) =? 0)%nat; [discriminate|].
  intros H Hin. injection H as _ _ <-.
  apply in_map_iff in Hin. destruct Hin as (note & Hit & _).
  apply show_item_preview in Hit. destruct Hit as (-> & content & Hr & ->).
  split; [apply shorten_length; lia|].
  split; [apply shorten_no_LF, first_line_no_LF|].
  exists content. split; [exact Hr|]. apply shorten_cases.
Qed.

(** X12 (witness): the preview of the note "Beta". *)
Lemma list_notes_previews_witness :
  (List.length ("Beta" : str) <= 60)%nat
  /\ ~ In LF ("Beta" : str)
  /\ exists content,
      read_text two_notes "2024-01-01_11-00-00.md" = Ret content
      /\ ((List.length (first_line content) <= 60)%nat ->
          ("Beta" : str) = first_line content)
      /\ ((60 < List.length (first_line content))%nat ->
          ("Beta" : str) = firstn 57 (first_line content) ++ "...").
Proof.
  apply (list_notes_previews utc two_notes 20 2 2
           [Preview "2024-01-01_11-00-00.md" "Beta";
            Preview "2024-01-01_10-00-00.md" "alpha"]).
  - vm_compute. reflexivity.
  - left. reflexivity.
Defined.

(** ** What a search shows *)

(** X13.  When [search_and_display] lists matches, the query is not blank,
    the number it prints is the number of notes found, it shows the first ten
    of them at most, in the order of [search_notes], and every line is a
    preview, never a read error: the note was read by the search, it holds
    the query, and its preview fits in 80 characters. *)
Theorem search_and_display_items (mktime : Z -> Z -> option Z) (d : directory)
    (query : str) (found : nat) (q : str) (items : list item) :
  search_and_display mktime d query = Matches found q items ->
  ~ blank query
  /\ q = query
  /\ found = List.length (fst (search_notes mktime d query))
  /\ List.length items = Nat.min 10 found
  /\ map item_name items = firstn 10 (fst (search_notes mktime d query))
  /\ forall it, In it items ->
       exists name content,
         it = Preview name (shorten 80 77 (first_line content))
         /\ read_text d name = Ret content
         /\ contains_ci query content
         /\ (List.length (shorten 80 77 (first_line content)) <= 80)%nat.
Proof.
  unfold search_and_display.
  destruct (List.length (fst (search_notes mktime d query)) =? 0)%nat eqn:E;
    [discriminate|].
  assert (Hq : ~ blank query).
  { intros Hb. rewrite search_notes_blank in E by exact Hb. discriminate. }
  remember (firstn 10 (fst (search_notes mktime d query))) as top eqn:Htop.
  intros H. injection H as <- <- <-.
  split; [exact Hq|]. split; [reflexivity|]. split; [reflexivity|].
  rewrite show_item_name, length_map. subst top. rewrite length_firstn.
  split; [reflexivity|]. split; [reflexivity|].
  intros it Hit. apply in_map_iff in Hit. destruct Hit as (f & <- & Hf).
  apply In_firstn in Hf.
  apply (Permutation_in _ (search_notes_perm mktime d query Hq)) in Hf.
  apply filter_In in Hf. destruct Hf as [_ Hf].
  apply search_hit_iff in Hf. destruct Hf as (_ & c & Hr & Hc).
  exists f, c. split; [unfold show_item; rewrite Hr; reflexivity|].
  split; [exact Hr|]. split; [exact Hc|].
  apply shorten_length. lia.
Qed.

(** X13 (witness): the search for "BETA" among the two notes. *)
Lemma search_and_display_items_witness :
  search_and_display utc two_notes "BETA"
  = Matches 1 "BETA" [Preview "2024-01-01_11-00-00.md" "Beta"]
  /\ ~ blank "BETA"
  /\ List.length [Preview "2024-01-01_11-00-00.md" "Beta"] = Nat.min 10 1.
Proof.
  assert (H : search_and_display utc two_notes "BETA"
              = Matches 1 "BETA" [Preview "2024-01-01_11-00-00.md" "Beta"]).
  { vm_compute. reflexivity. }
  split; [exact H|].
  destruct (search_and_display_items utc two_notes "BETA" 1 "BETA" _ H)
    as (Hq & _ & _ & Hl & _).
  split; [exact Hq | exact Hl].
Defined.

(** ** Notes made of blank lines *)

Lemma blank_join (lines : list str) :
  Forall blank lines -> blank (join nl lines).
Proof.
  induction lines as [|x [|y l] IH]; intros H.
  - constructor.
  - inversion H; assumption.
  - rewrite join_cons. inversion H; subst.
    apply blank_app; [assumption|]. apply blank_app; [apply blank_nl|].
    apply IH. assumption.
Qed.

(** X14.  Lines that are all blank make no note: [save_lines], which
    [tui_loop] calls on the lines gathered, leaves the directory as it is and
    the loop goes on as after a save. *)
Theorem blank_lines_not_saved (d : directory) (now : datetime)
    (lines : list str) (next : control) :
  Forall blank lines -> save_lines d now lines next = (d, next).
Proof.
  intros H. rewrite save_lines_eq.
  rewrite save_note_blank; [reflexivity|].
  apply strip_blank_iff, blank_join, H.
Qed.

(** X14 (witness): an empty line and a line of spaces. *)
Lemma blank_lines_not_saved_witness :
  save_lines two_notes noon [([] : str); ("   " : str)] Continue
  = (two_notes, Continue).
Proof.
  apply blank_lines_not_saved.
  repeat constructor.
Defined.

(** ** When a note goes on *)

(** X15.  [prompt_blank_line_action] returns "ctrlx" in two cases only:
    without [termios], when the answer typed is an x in either case, white
    space around it apart; with [termios], when every terminal call succeeds
    and the key read is Ctrl+X. *)
Theorem prompt_ctrlx_iff (HAS_TERMIOS : bool) (c : console) :
  prompt_blank_line_action HAS_TERMIOS c = Ret ("ctrlx" : str)
  <-> (HAS_TERMIOS = false
       /\ exists s, answer c = Line s /\ lower (strip s) = ("x" : str))
      \/ (HAS_TERMIOS = true
          /\ tcgetattr c = Ret tt /\ setraw c = Ret tt
          /\ read1 c = Ret CTRL_X /\ tcsetattr c = Ret tt).
Proof.
  unfold prompt_blank_line_action. destruct HAS_TERMIOS; cbn [negb].
  - split.
    + intros H. right. split; [reflexivity|].
      destruct (tcgetattr c) as [[]|e1]; [|discriminate].
      split; [reflexivity|].
      destruct (tcsetattr c) as [[]|e4].
      * destruct (setraw c) as [[]|e2].
        -- destruct (read1 c) as [ch|e3].
           ++ destruct (str_eqb ch CTRL_X) eqn:E.
              ** apply str_eqb_eq in E. subst ch. auto.
              ** discriminate.
           ++ destruct e3; discriminate.
        -- destruct e2; discriminate.
      * discriminate.
    + intros [[H _]|(_ & -> & -> & -> & ->)]; [discriminate|]. reflexivity.
  - split.
    + intros H. left. split; [reflexivity|].
      destruct (answer c) as [s| |]; try discriminate.
      exists s. split; [reflexivity|].
      destruct (str_eqb (lower (strip s)) "x") eqn:E; [|discriminate].
      apply str_eqb_eq in E. exact E.
    + intros [(_ & s & -> & Hs)|[H _]]; [|discriminate].
      rewrite Hs. reflexivity.
Qed.

(** ** The dashboard loop *)


Lemma capture_from_length (HAS_TERMIOS : bool) (inputs : list input_result) :
  forall lines prompts,
    (List.length (snd (fst (capture_from HAS_TERMIOS lines inputs prompts)))
     <= List.length inputs)%nat.
Proof.
  induction inputs as [|[line| |] inputs IH]; intros lines prompts;
    cbn [capture_from fst snd List.length]; try lia.
  destruct (is_empty (strip line)).
  - destruct (prompt_blank_line_action HAS_TERMIOS (hd at_eof prompts))
      as [action|e].
    + destruct (str_eqb action "ctrlx").
      * specialize (IH (lines ++ [[]]) (tl prompts)). lia.
      * cbn [fst snd]. lia.
    + destruct e; cbn [fst snd]; lia.
  - specialize (IH (lines ++ [line]) prompts). lia.
Qed.

Lemma save_in_extends (clock : nat -> datetime) (w : world)
    (lines : list str) (next : control) :
  exists more, notes (fst (save_in clock w lines next)) = notes w ++ more.
Proof.
  unfold save_in. destruct lines as [|l lines].
  - exists []. symmetry. apply app_nil_r.
  - rewrite save_lines_eq.
    destruct (save_note (notes w) (clock (saves w)) (join nl (l :: lines)))
      as [d' r] eqn:H.
    assert (Hd : exists more, d' = notes w ++ more).
    { destruct r as [[p|]|e].
      - apply save_note_returns in H. destruct H as (_ & _ & ->).
        eexists. reflexivity.
      - exists []. rewrite app_nil_r.
        destruct (strip (join nl (l :: lines))) as [|c r] eqn:Hs.
        + rewrite save_note_blank in H by exact Hs. congruence.
        + rewrite save_note_nonblank in H by congruence.
          destruct (_free_filename (notes w) (_now_ts (clock (saves w))));
            discriminate.
      - exists []. rewrite app_nil_r.
        destruct (strip (join nl (l :: lines))) as [|c r] eqn:Hs.
        + rewrite save_note_blank in H by exact Hs. discriminate.
        + rewrite save_note_nonblank in H by congruence.
          destruct (_free_filename (notes w) (_now_ts (clock (saves w))));
            [discriminate | congruence]. }
    destruct Hd as [more ->]. exists more. destruct r; reflexivity.
Qed.

Section Loop.

Variable mktime : Z -> Z -> option Z.
Variables HAS_TERMIOS HAS_CLIPBOARD copy_ok : bool.
Variable clock : nat -> datetime.

Lemma tui_loop_fuel_more (n : nat) :
  forall m w inputs prompts,
    (List.length inputs < n)%nat -> (List.length inputs < m)%nat ->
    tui_loop_fuel mktime HAS_TERMIOS HAS_CLIPBOARD copy_ok clock
                  n w inputs prompts
    = tui_loop_fuel mktime HAS_TERMIOS HAS_CLIPBOARD copy_ok clock
                    m w inputs prompts.
Proof.
  induction n as [|n IH]; intros m w inputs prompts Hn Hm; [lia|].
  destruct m as [|m]; [lia|].
  cbn [tui_loop_fuel].
  destruct inputs as [|[raw| |] inputs1]; try reflexivity.
  cbn [List.length] in Hn, Hm.
  destruct (is_exit (strip raw)); [reflexivity|].
  destruct (str_eqb (lower (strip raw)) "copy").
  { destruct (copy_last mktime HAS_CLIPBOARD copy_ok (notes w) (clipboard w)).
    apply IH; lia. }
  assert (Hpress : forall w0,
             press_enter w0 inputs1
               (fun rest => tui_loop_fuel mktime HAS_TERMIOS HAS_CLIPBOARD
                              copy_ok clock n w0 rest prompts)
             = press_enter w0 inputs1
                 (fun rest => tui_loop_fuel mktime HAS_TERMIOS HAS_CLIPBOARD
                                copy_ok clock m w0 rest prompts)).
  { intros w0. unfold press_enter.
    destruct inputs1 as [|[l| |] rest]; try reflexivity.
    cbn [List.length] in Hn, Hm. apply IH; lia. }
  destruct (str_eqb (lower (strip raw)) "list"); [apply Hpress|].
  destruct (is_search (strip raw)).
  { destruct (negb (is_empty (strip (search_query (strip raw)))));
      [apply Hpress | apply IH; lia]. }
  pose proof (capture_from_length HAS_TERMIOS inputs1 (seed (strip raw)) prompts)
    as Hlen.
  destruct (capture_from HAS_TERMIOS (seed (strip raw)) inputs1 prompts)
    as [[[lines|lines|e] inputs2] prompts2]; try reflexivity.
  cbn [fst snd] in Hlen.
  destruct (save_in clock w lines Continue) as [w' [| |e]]; try reflexivity;
    apply IH; lia.
Qed.

Lemma tui_loop_fuel_ended (n : nat) :
  forall w inputs prompts,
    (List.length inputs < n)%nat ->
    ended (snd (tui_loop_fuel mktime HAS_TERMIOS HAS_CLIPBOARD copy_ok clock
                              n w inputs prompts)) = true.
Proof.
  induction n as [|n IH]; intros w inputs prompts Hn; [lia|].
  cbn [tui_loop_fuel].
  destruct inputs as [|[raw| |] inputs1]; try reflexivity.
  cbn [List.length] in Hn.
  destruct (is_exit (strip raw)); [reflexivity|].
  destruct (str_eqb (lower (strip raw)) "copy").
  { destruct (copy_last mktime HAS_CLIPBOARD copy_ok (notes w) (clipboard w)).
    apply IH; lia. }
  assert (Hpress : forall w0,
             ended (snd (press_enter w0 inputs1
               (fun rest => tui_loop_fuel mktime HAS_TERMIOS HAS_CLIPBOARD
                              copy_ok clock n w0 rest prompts))) = true).
  { intros w0. unfold press_enter.
    destruct inputs1 as [|[l| |] rest]; try reflexivity.
    cbn [List.length] in Hn. apply IH; lia. }
  destruct (str_eqb (lower (strip raw)) "list"); [apply Hpress|].
  destruct (is_search (strip raw)).
  { destruct (negb (is_empty (strip (search_query (strip raw)))));
      [apply Hpress | apply IH; lia]. }
  pose proof (capture_from_length HAS_TERMIOS inputs1 (seed (strip raw)) prompts)
    as Hlen.
  destruct (capture_from HAS_TERMIOS (seed (strip raw)) inputs1 prompts)
    as [[[lines|lines|e] inputs2] prompts2]; try reflexivity.
  - cbn [fst snd] in Hlen.
    destruct (save_in clock w lines Continue) as [w' [| |e]]; try reflexivity;
      apply IH; lia.
  - destruct (save_in clock w lines Break) as [w' [| |e]]; reflexivity.
Qed.

(** X16.  [tui_loop] ends when its input does: every pass that does not end
    the loop reads at least one line, so a bound on the number of passes
    that exceeds the number of inputs is never reached, and the outcome does
    not depend on it. *)
Theorem tui_loop_ends (fuel : nat) (w : world) (inputs : list input_result)
    (prompts : list console) :
  (List.length inputs < fuel)%nat ->
  tui_loop_fuel mktime HAS_TERMIOS HAS_CLIPBOARD copy_ok clock
                fuel w inputs prompts
  = tui_loop mktime HAS_TERMIOS HAS_CLIPBOARD copy_ok clock w inputs prompts
  /\ ended (snd (tui_loop mktime HAS_TERMIOS HAS_CLIPBOARD copy_ok clock
                          w inputs prompts)) = true.
Proof.
  intros H. unfold tui_loop. split.
  - apply tui_loop_fuel_more; lia.
  - apply tui_loop_fuel_ended; lia.
Qed.

Lemma tui_loop_fuel_extends (n : nat) :
  forall w inputs prompts,
  exists more,
    notes (fst (tui_loop_fuel mktime HAS_TERMIOS HAS_CLIPBOARD copy_ok clock
                              n w inputs prompts))
    = notes w ++ more.
Proof.
  assert (Hnil : forall w : world, exists more, notes w = notes w ++ more).
  { intros w. exists []. symmetry. apply app_nil_r. }
  induction n as [|n IH]; intros w inputs prompts; [apply Hnil|].
  cbn [tui_loop_fuel].
  destruct inputs as [|[raw| |] inputs1]; try apply Hnil.
  destruct (is_exit (strip raw)); [apply Hnil|].
  destruct (str_eqb (lower (strip raw)) "copy").
  { destruct (copy_last mktime HAS_CLIPBOARD copy_ok (notes w) (clipboard w))
      as [clip' msg].
    apply (IH (mkWorld (notes w) clip' (saves w))). }
  assert (Hpress :
            exists more,
              notes (fst (press_enter w inputs1
                (fun rest => tui_loop_fuel mktime HAS_TERMIOS HAS_CLIPBOARD
                               copy_ok clock n w rest prompts)))
              = notes w ++ more).
  { unfold press_enter.
    destruct inputs1 as [|[l| |] rest]; try apply Hnil. apply IH. }
  destruct (str_eqb (lower (strip raw)) "list"); [apply Hpress|].
  destruct (is_search (strip raw)).
  { destruct (negb (is_empty (strip (search_query (strip raw)))));
      [apply Hpress | apply IH]. }
  destruct (capture_from HAS_TERMIOS (seed (strip raw)) inputs1 prompts)
    as [[[lines|lines|e] inputs2] prompts2]; try apply Hnil.
  - destruct (save_in_extends clock w lines Continue) as (m1 & H1).
    destruct (save_in clock w lines Continue) as [w' c]. cbn [fst] in H1.
    destruct c as [| |e]; [| |exists m1; exact H1];
      destruct (IH w' inputs2 prompts2) as (m2 & H2);
      exists (m1 ++ m2); rewrite H2, H1, app_assoc; reflexivity.
  - destruct (save_in_extends clock w lines Break) as (m1 & H1).
    destruct (save_in clock w lines Break) as [w' c]. cbn [fst] in H1.
    destruct c; exists m1; exact H1.
Qed.

(** X17.  [tui_loop] changes and removes no file that exists: whatever is
    typed, a file that is in the directory when the loop starts is there
    when it ends and holds what it held. *)
Theorem tui_loop_keeps_notes (w : world) (inputs : list input_result)
    (prompts : list console) (n : str) :
  path_exists (notes w) n = true ->
  lookup (notes (fst (tui_loop mktime HAS_TERMIOS HAS_CLIPBOARD copy_ok clock
                               w inputs prompts))) n
  = lookup (notes w) n.
Proof.
  intros H. unfold tui_loop.
  destruct (tui_loop_fuel_extends (S (List.length inputs)) w inputs prompts)
    as (more & ->).
  rewrite lookup_app. apply path_exists_lookup in H.
  destruct (lookup (notes w) n); [reflexivity | congruence].
Qed.

End Loop.

(** X16 (witness): a note, a listing and a copy, with a bound of ten
    passes. *)
Lemma tui_loop_ends_witness :
  tui_loop_fuel utc true true true stopped_clock 10 fresh
    [Line "hello"; Line []; Line "list"; Line []; Line "copy"; Line "EXIT"]
    [key ENTER_KEY]
  = tui_loop utc true true true stopped_clock fresh
      [Line "hello"; Line []; Line "list"; Line []; Line "copy"; Line "EXIT"]
      [key ENTER_KEY]
  /\ ended (snd (tui_loop utc true true true stopped_clock fresh
      [Line "hello"; Line []; Line "list"; Line []; Line "copy"; Line "EXIT"]
      [key ENTER_KEY])) = true.
Proof.
  apply tui_loop_ends. cbn [List.length]. lia.
Defined.

(** X17 (witness): a note typed and confirmed beside the two notes of the
    morning. *)
Lemma tui_loop_keeps_notes_witness :
  lookup (notes (fst (tui_loop utc true true true stopped_clock
                               (mkWorld two_notes [] 0)
                               [Line "hello"; Line []] [key ENTER_KEY])))
         "2024-01-01_11-00-00.md"
  = lookup two_notes "2024-01-01_11-00-00.md".
Proof.
  apply (tui_loop_keeps_notes utc true true true stopped_clock
           (mkWorld two_notes [] 0)).
  reflexivity.
Defined.

(** ** Commands of the dashboard *)

(** X18.  A search command written with a capital letter is recognised, as
    the test of the command ignores the case, but the query is then cut
    after one character instead of seven: whenever the lower-case form of
    the command begins with [search ] and the command itself does not, the
    query is the command without its first character, and so begins with
    [earch ] in some case. *)
Theorem search_query_capital (cmd : str) :
  startswith (lower cmd) "search " = true ->
  startswith cmd "search " = false ->
  is_search cmd = true
  /\ exists c rest,
      cmd = c :: rest
      /\ search_query cmd = rest
      /\ startswith (lower rest) "earch " = true.
Proof.
  intros Hl Hc. split; [unfold is_search; rewrite Hl; reflexivity|].
  destruct cmd as [|c rest]; [discriminate|].
  exists c, rest. split; [reflexivity|].
  split; [unfold search_query; rewrite Hc; reflexivity|].
  cbn in Hl. apply andb_true_iff in Hl. exact (proj2 Hl).
Qed.

(** X18 (witness): [Search foo] looks for [earch foo]. *)
Lemma search_query_capital_witness :
  is_search "Search foo" = true
  /\ exists c rest,
      ("Search foo" : str) = c :: rest
      /\ search_query "Search foo" = rest
      /\ startswith (lower rest) "earch " = true.
Proof. apply search_query_capital; reflexivity. Defined.


Section Passes.

Variable mktime : Z -> Z -> option Z.
Variables HAS_TERMIOS HAS_CLIPBOARD copy_ok : bool.
Variable clock : nat -> datetime.

Lemma pass_waits (n : nat) (w : world) (raw : str)
    (inputs1 : list input_result) (prompts : list console) :
  is_exit (strip raw) = false ->
  str_eqb (lower (strip raw)) "copy" = false ->
  (str_eqb (lower (strip raw)) "list" = true
   \/ (str_eqb (lower (strip raw)) "list" = false
       /\ is_search (strip raw) = true
       /\ is_empty (strip (search_query (strip raw))) = false)) ->
  tui_loop_fuel mktime HAS_TERMIOS HAS_CLIPBOARD copy_ok clock
                (S n) w (Line raw :: inputs1) prompts
  = press_enter w inputs1
      (fun rest => tui_loop_fuel mktime HAS_TERMIOS HAS_CLIPBOARD copy_ok
                                 clock n w rest prompts).
Proof.
  intros He Hc H. cbn [tui_loop_fuel]. rewrite He, Hc.
  destruct H as [->|(-> & -> & ->)]; reflexivity.
Qed.

(** X19.  After [list], and after a search whose query is not blank, the
    loop waits for Enter outside the handlers of the prompt: the end of the
    input there ends the loop in the handler of unexpected errors, an
    interrupt leaves [tui_loop] as [KeyboardInterrupt], and any line typed
    brings the dashboard back; the notes are as before in each case. *)
Theorem press_enter_endings (w : world) (raw : str)
    (rest : list input_result) (prompts : list console) :
  lower (strip raw) = ("list" : str)
  \/ (exists q, strip raw = "/" ++ q /\ strip q <> []) ->
  tui_loop mktime HAS_TERMIOS HAS_CLIPBOARD copy_ok clock
           w [Line raw] prompts
  = (w, Unexpected EOFError)
  /\ tui_loop mktime HAS_TERMIOS HAS_CLIPBOARD copy_ok clock
              w (Line raw :: Eof :: rest) prompts
     = (w, Unexpected EOFError)
  /\ tui_loop mktime HAS_TERMIOS HAS_CLIPBOARD copy_ok clock
              w (Line raw :: Interrupt :: rest) prompts
     = (w, Escaped KeyboardInterrupt)
  /\ forall line,
      tui_loop mktime HAS_TERMIOS HAS_CLIPBOARD copy_ok clock
               w (Line raw :: Line line :: rest) prompts
      = tui_loop mktime HAS_TERMIOS HAS_CLIPBOARD copy_ok clock
                 w rest prompts.
Proof.
  intros H.
  assert (Hw : forall n inputs1,
             tui_loop_fuel mktime HAS_TERMIOS HAS_CLIPBOARD copy_ok clock
                           (S n) w (Line raw :: inputs1) prompts
             = press_enter w inputs1
                 (fun rest => tui_loop_fuel mktime HAS_TERMIOS HAS_CLIPBOARD
                                copy_ok clock n w rest prompts)).
  { intros n inputs1. destruct H as [H|(q & H & Hq)].
    - apply pass_waits.
      + unfold is_exit. rewrite H. reflexivity.
      + rewrite H. reflexivity.
      + left. rewrite H. reflexivity.
    - destruct q as [|c q]; [exfalso; apply Hq; reflexivity|].
      apply pass_waits.
      + unfold is_exit. rewrite H. reflexivity.
      + rewrite H. reflexivity.
      + right. rewrite H. split; [reflexivity|]. split; [reflexivity|].
        apply is_empty_false. exact Hq. }
  unfold tui_loop. rewrite !Hw. cbn [press_enter].
  split; [reflexivity|]. split; [reflexivity|]. split; [reflexivity|].
  intros line. rewrite Hw. cbn [press_enter List.length].
  apply tui_loop_fuel_more; lia.
Qed.


End Passes.

(** X19 (witness): the end of the input after [LIST]. *)
Lemma press_enter_endings_witness :
  tui_loop utc true true true stopped_clock fresh [Line " LIST "] []
  = (fresh, Unexpected EOFError)
  /\ tui_loop utc true true true stopped_clock fresh [Line "/x"; Interrupt] []
     = (fresh, Escaped KeyboardInterrupt).
Proof.
  split.
  - apply (press_enter_endings utc true true true stopped_clock fresh
             " LIST " [] []).
    left. reflexivity.
  - refine (proj1 (proj2 (proj2
             (press_enter_endings utc true true true stopped_clock fresh
                "/x" [] [] _)))).
    right. exists ("x" : str). split; [reflexivity | discriminate].
Defined.

